(** * Calculator CLI: a shallow embedding of [example_files/test.c] and
      [example_files/test2.c]

    Both programs prompt for two [int]s, compute sum, difference and
    product in [int] arithmetic, divide in single precision when the
    second operand is not zero, and print a report with [printf].

    The embedding keeps the shape of the C text: a [main] per file, made
    of the statements of the source in order, over

    - 32-bit two's-complement [int]s, carried by [Z] with the wrap-around
      written out (module [CInt]);
    - IEEE-754 binary32 [float]s, carried by the Standard Library's
      [spec_float] with [prec = 24], [emax = 128] (module [Binary32]);
    - the two [stdio] calls the programs make, [printf] and [scanf]
      (module [Stdio]);
    - local variables that are indeterminate until they are assigned, and
      whose read before assignment is a fault (module [Machine]). *)

From Stdlib Require Import ZArith List String Ascii Bool Lia.
From Stdlib Require Import QArith Qabs Qpower Lqa.
From Stdlib Require Import DecimalString.
From Stdlib Require Import Floats.SpecFloat.
Import ListNotations.

#[local] Open Scope string_scope.
#[local] Open Scope Z_scope.

(* ================================================================= *)
(** ** The C type [int] *)

Module CInt.

Definition INT_MIN : Z := - 2 ^ 31.
Definition INT_MAX : Z := 2 ^ 31 - 1.

(** The values an [int] object can hold. *)
Definition in_range (z : Z) : bool := (INT_MIN <=? z) && (z <=? INT_MAX).

(** Reduction of a mathematical integer to the [int] with the same low
    32 bits.  ISO C leaves signed overflow undefined; the compiled
    programs use the machine's [add], [sub] and [imul], which wrap. *)
Definition wrap (z : Z) : Z := (z + 2 ^ 31) mod 2 ^ 32 - 2 ^ 31.

Definition add (a b : Z) : Z := wrap (a + b).
Definition sub (a b : Z) : Z := wrap (a - b).
Definition mul (a b : Z) : Z := wrap (a * b).

(** [a != b] *)
Definition ne (a b : Z) : bool := negb (a =? b).

End CInt.

(* ================================================================= *)
(** ** The C type [float] *)

Module Binary32.

Definition prec : Z := 24.
Definition emax : Z := 128.

Definition float : Type := spec_float.

(** [(float) n] for an [int] n: the nearest binary32, ties to even. *)
Definition of_int (n : Z) : float := binary_normalize prec emax n 0 false.

(** [x / y] on [float]s, evaluated in single precision. *)
Definition div (x y : float) : float := SFdiv prec emax x y.

(** The magnitude of a finite non-zero float. *)
Definition mag (m : positive) (e : Z) : Q := (inject_Z (Z.pos m) * 2 ^ e)%Q.

Definition cond_Qopp (s : bool) (q : Q) : Q := if s then (- q)%Q else q.

(** The rational a float stands for; zeros, and for definiteness the
    infinities and NaN, are sent to 0. *)
Definition to_Q (x : float) : Q :=
  match x with
  | S754_finite s m e => cond_Qopp s (mag m e)
  | _ => 0%Q
  end.

Definition is_finite (x : float) : bool :=
  match x with
  | S754_zero _ | S754_finite _ _ _ => true
  | _ => false
  end.

(** The unit roundoff of binary32, [2 ^ -24]. *)
Definition u : Q := 1 # 16777216.

(** A rounding record locates the fraction [N / D]: it holds its integer
    part, whether what is left reaches one half, and whether anything
    lies beyond these (the round and sticky bits of [SpecFloat]). *)
Definition located (N D : Z) (mrs : shr_record) : Prop :=
  shr_m mrs = N / D /\
  shr_r mrs = (D <=? 2 * (N mod D)) /\
  shr_s mrs = negb ((N mod D =? 0) || (2 * (N mod D) =? D)).

End Binary32.

(* ================================================================= *)
(** ** [printf] and [scanf] *)

Module Stdio.

(** An argument of a variadic call.  A [float] argument is promoted to
    [double], which is exact, so it is kept as the binary32 it is. *)
Inductive value : Type :=
| VInt (z : Z)
| VFloat (f : Binary32.float).

Definition LF : ascii := ascii_of_nat 10.

(** What the compiler makes of the text between the quotes of a C string
    literal; [\n] is the only escape sequence the programs use. *)
Fixpoint c_str (s : string) : string :=
  match s with
  | String "\" (String "n" r) => String LF (c_str r)
  | String c r => String c (c_str r)
  | EmptyString => EmptyString
  end.

(** [%d] *)
Definition dec (z : Z) : string := NilZero.string_of_int (Z.to_int z).

(** Nearest integer to [n / d] for [0 <= n], [0 < d], ties to even. *)
Definition round_half_even (n d : Z) : Z :=
  let q := n / d in
  match 2 * (n mod d) ?= d with
  | Lt => q
  | Gt => q + 1
  | Eq => if Z.even q then q else q + 1
  end.

(** The number of hundredths nearest to [m * 2 ^ e]. *)
Definition hundredths (m : positive) (e : Z) : Z :=
  match e with
  | Zneg p => round_half_even (Z.pos m * 100) (2 ^ Z.pos p)
  | _ => Z.pos m * 100 * 2 ^ e
  end.

Definition two_digits (k : Z) : string :=
  if k <? 10 then "0" ++ dec k else dec k.

Definition sign_str (s : bool) : string := if s then "-" else "".

(** [%.2f]: the exact value rounded to two decimals, to nearest and ties
    to even as glibc does; the sign is printed for negative zero too. *)
Definition fixed2 (x : Binary32.float) : string :=
  match x with
  | S754_zero s => sign_str s ++ "0.00"
  | S754_infinity s => sign_str s ++ "inf"
  | S754_nan => "nan"
  | S754_finite s m e =>
      let h := hundredths m e in
      sign_str s ++ dec (h / 100) ++ "." ++ two_digits (h mod 100)
  end.

(** The text a [printf] call writes, from the format as the callee sees
    it; [None] when a directive is not one of [%d], [%.2f] or has no
    argument of its type (undefined in C). *)
Fixpoint format (fmt : string) (args : list value) : option string :=
  match fmt with
  | EmptyString => Some EmptyString
  | String "%" (String "d" r) =>
      match args with
      | VInt z :: args' => option_map (append (dec z)) (format r args')
      | _ => None
      end
  | String "%" (String "." (String "2" (String "f" r))) =>
      match args with
      | VFloat x :: args' => option_map (append (fixed2 x)) (format r args')
      | _ => None
      end
  | String "%" _ => None
  | String c r => option_map (String c) (format r args)
  end.

End Stdio.

(* ================================================================= *)
(** ** Runs: local variables, standard input, and what a run does *)

Module Machine.
Import Stdio.

(** What a run does that can be seen from outside or counted:
    a [printf] call with the literal it was given and its arguments, a
    [scanf] call with the [int] it stored if it stored one, and a
    single-precision division with its operands. *)
Inductive event : Type :=
| EvPrintf (fmt : string) (args : list value)
| EvScanf (fmt : string) (stored : option Z)
| EvFdiv (x y : Binary32.float).

(** Standard input is given by the [int]s that successive [scanf("%d")]
    calls convert; once they are used up (end of file, or text that is
    not a number, which [scanf] leaves in the stream) every later call
    stores nothing. *)
Record world : Type := mkWorld { stdin : list Z; trace : list event }.

Inductive fault : Type :=
| Uninitialized (var : string)
| BadFormat (fmt : string).

Section Monad.
Variable L : Type.

Inductive outcome (A : Type) : Type :=
| Done (a : A) (l : L) (w : world)
| Fault (f : fault) (l : L) (w : world).

Definition M (A : Type) : Type := L -> world -> outcome A.

Definition ret {A} (a : A) : M A := fun l w => Done A a l w.

Definition bind {A B} (m : M A) (k : A -> M B) : M B :=
  fun l w =>
    match m l w with
    | Done _ a l' w' => k a l' w'
    | Fault _ f l' w' => Fault B f l' w'
    end.

Definition emit (ev : event) (w : world) : world :=
  mkWorld (stdin w) (trace w ++ [ev])%list.

(** Reading a local variable; one that was never assigned has no value
    to give. *)
Definition load {V} (name : string) (get : L -> option V) : M V :=
  fun l w =>
    match get l with
    | Some v => Done V v l w
    | None => Fault V (Uninitialized name) l w
    end.

(** Assigning a local variable. *)
Definition store {V} (set : V -> L -> L) (v : V) : M unit :=
  fun l w => Done unit tt (set v l) w.

(** [printf(fmt, args...)], its return value dropped as in the source. *)
Definition printf (fmt : string) (args : list value) : M unit :=
  fun l w =>
    match format (c_str fmt) args with
    | Some _ => Done unit tt l (emit (EvPrintf fmt args) w)
    | None => Fault unit (BadFormat fmt) l w
    end.

(** [scanf("%d", &x)], its return value dropped as in the source: on a
    successful conversion the [int] is stored in [x], otherwise [x] is
    left as it was. *)
Definition scanf (fmt : string) (set : Z -> L -> L) : M unit :=
  fun l w =>
    if String.eqb fmt "%d" then
      match stdin w with
      | z :: rest =>
          Done unit tt (set z l) (mkWorld rest (trace w ++ [EvScanf fmt (Some z)])%list)
      | [] => Done unit tt l (emit (EvScanf fmt None) w)
      end
    else Fault unit (BadFormat fmt) l w.

(** A single-precision division. *)
Definition fdiv (x y : Binary32.float) : M Binary32.float :=
  fun l w => Done _ (Binary32.div x y) l (emit (EvFdiv x y) w).

(** A block: its statements in order. *)
Fixpoint exec (ss : list (M unit)) : M unit :=
  match ss with
  | [] => ret tt
  | s :: ss' => bind s (fun _ => exec ss')
  end.

End Monad.

Arguments Done {L A} a l w.
Arguments Fault {L A} f l w.
Arguments ret {L A} a _ _.
Arguments bind {L A B} m k _ _.
Arguments load {L V} name get _ _.
Arguments store {L V} set v _ _.
Arguments printf {L} fmt args _ _.
Arguments scanf {L} fmt set _ _.
Arguments fdiv {L} x y _ _.
Arguments exec {L} ss _ _.

(** The bytes written to standard output. *)
Fixpoint stdout (tr : list event) : string :=
  match tr with
  | [] => ""
  | EvPrintf fmt args :: tr' =>
      match format (c_str fmt) args with
      | Some s => s ++ stdout tr'
      | None => stdout tr'
      end
  | _ :: tr' => stdout tr'
  end.

(** The arguments of the [printf] calls that had any, in order. *)
Fixpoint printed (tr : list event) : list (list value) :=
  match tr with
  | [] => []
  | EvPrintf _ (v :: vs) :: tr' => (v :: vs) :: printed tr'
  | _ :: tr' => printed tr'
  end.

(** The operands of the divisions performed, in order. *)
Fixpoint divisions (tr : list event) : list (Binary32.float * Binary32.float) :=
  match tr with
  | [] => []
  | EvFdiv x y :: tr' => (x, y) :: divisions tr'
  | _ :: tr' => divisions tr'
  end.

(** The [printf] calls made, in order. *)
Fixpoint printfs (tr : list event) : list (string * list value) :=
  match tr with
  | [] => []
  | EvPrintf fmt args :: tr' => (fmt, args) :: printfs tr'
  | _ :: tr' => printfs tr'
  end.

Definition is_float_value (v : value) : bool :=
  match v with VFloat _ => true | VInt _ => false end.

(** What the [scanf] calls stored, in order. *)
Fixpoint scanned (tr : list event) : list (option Z) :=
  match tr with
  | [] => []
  | EvScanf _ stored :: tr' => stored :: scanned tr'
  | _ :: tr' => scanned tr'
  end.

(** Some [printf] call of the trace was given a [float]. *)
Definition prints_a_float (tr : list event) : bool :=
  existsb (fun call => existsb is_float_value (snd call)) (printfs tr).

(** The [float]s given to [printf] calls, in order. *)
Definition floats_printed (tr : list event) : list Binary32.float :=
  flat_map
    (fun call =>
       flat_map (fun v => match v with VFloat x => [x] | VInt _ => [] end)
                (snd call))
    (printfs tr).

End Machine.

Declare Scope prog_scope.
Delimit Scope prog_scope with prog.
Notation "x <- m ;; k" := (Machine.bind m (fun x => k))
  (at level 61, m at next level, right associativity) : prog_scope.

#[local] Open Scope prog_scope.

(* ================================================================= *)
(** ** [example_files/test.c] *)

Module Test.
Import Stdio Machine.

(** The local variables of [main]; [None] until assigned. *)
Record locals : Type := mkLocals {
  num1 : option Z;
  num2 : option Z;
  sum : option Z;
  difference : option Z;
  product : option Z;
  quotient : option Binary32.float
}.

Definition set_num1 (v : Z) (l : locals) : locals :=
  mkLocals (Some v) (num2 l) (sum l) (difference l) (product l) (quotient l).
Definition set_num2 (v : Z) (l : locals) : locals :=
  mkLocals (num1 l) (Some v) (sum l) (difference l) (product l) (quotient l).
Definition set_sum (v : Z) (l : locals) : locals :=
  mkLocals (num1 l) (num2 l) (Some v) (difference l) (product l) (quotient l).
Definition set_difference (v : Z) (l : locals) : locals :=
  mkLocals (num1 l) (num2 l) (sum l) (Some v) (product l) (quotient l).
Definition set_product (v : Z) (l : locals) : locals :=
  mkLocals (num1 l) (num2 l) (sum l) (difference l) (Some v) (quotient l).
Definition set_quotient (v : Binary32.float) (l : locals) : locals :=
  mkLocals (num1 l) (num2 l) (sum l) (difference l) (product l) (Some v).

(** The statements of [main] before [return 0], in source order.  In
    [(float)num1 / num2] the divisor is converted to [float] by the usual
    arithmetic conversions. *)
Definition body : list (M locals unit) :=
  [ printf "=== Simple Calculator Program ===\n" [];
    printf "Enter the first number: " [];
    scanf "%d" set_num1;
    printf "Enter the second number: " [];
    scanf "%d" set_num2;
    (a <- load "num1" num1 ;; b <- load "num2" num2 ;;
     store set_sum (CInt.add a b));
    (a <- load "num1" num1 ;; b <- load "num2" num2 ;;
     store set_difference (CInt.sub a b));
    (a <- load "num1" num1 ;; b <- load "num2" num2 ;;
     store set_product (CInt.mul a b));
    (c <- load "num2" num2 ;;
     if CInt.ne c 0 then
       a <- load "num1" num1 ;; b <- load "num2" num2 ;;
       q <- fdiv (Binary32.of_int a) (Binary32.of_int b) ;;
       store set_quotient q
     else ret tt);
    printf "\n=== Results ===\n" [];
    (a <- load "num1" num1 ;; b <- load "num2" num2 ;; s <- load "sum" sum ;;
     printf "Addition: %d + %d = %d\n" [VInt a; VInt b; VInt s]);
    (a <- load "num1" num1 ;; b <- load "num2" num2 ;;
     d <- load "difference" difference ;;
     printf "Subtraction: %d - %d = %d\n" [VInt a; VInt b; VInt d]);
    (a <- load "num1" num1 ;; b <- load "num2" num2 ;;
     p <- load "product" product ;;
     printf "Multiplication: %d × %d = %d\n" [VInt a; VInt b; VInt p]);
    (c <- load "num2" num2 ;;
     if CInt.ne c 0 then
       a <- load "num1" num1 ;; b <- load "num2" num2 ;;
       q <- load "quotient" quotient ;;
       printf "Division: %d ÷ %d = %.2f\n" [VInt a; VInt b; VFloat q]
     else printf "Division: Cannot divide by zero!\n" [])
  ].

Definition main : M locals Z := _ <- exec body ;; ret 0.

(** The locals at entry: nothing assigned yet. *)
Definition entry : locals := mkLocals None None None None None None.

(** A run of the program on the given input. *)
Definition run (input : list Z) : outcome locals Z :=
  main entry (mkWorld input []).

End Test.

(* ================================================================= *)
(** ** [example_files/test2.c] *)

Module Test2.
Import Stdio Machine.

Record locals : Type := mkLocals {
  num1 : option Z;
  num2 : option Z;
  sum : option Z;
  difference : option Z;
  product : option Z;
  division : option Binary32.float
}.

Definition set_num1 (v : Z) (l : locals) : locals :=
  mkLocals (Some v) (num2 l) (sum l) (difference l) (product l) (division l).
Definition set_num2 (v : Z) (l : locals) : locals :=
  mkLocals (num1 l) (Some v) (sum l) (difference l) (product l) (division l).
Definition set_sum (v : Z) (l : locals) : locals :=
  mkLocals (num1 l) (num2 l) (Some v) (difference l) (product l) (division l).
Definition set_difference (v : Z) (l : locals) : locals :=
  mkLocals (num1 l) (num2 l) (sum l) (Some v) (product l) (division l).
Definition set_product (v : Z) (l : locals) : locals :=
  mkLocals (num1 l) (num2 l) (sum l) (difference l) (Some v) (division l).
Definition set_division (v : Binary32.float) (l : locals) : locals :=
  mkLocals (num1 l) (num2 l) (sum l) (difference l) (product l) (Some v).

Definition body : list (M locals unit) :=
  [ printf "Enter first number: " [];
    scanf "%d" set_num1;
    printf "Enter second number: " [];
    scanf "%d" set_num2;
    (a <- load "num1" num1 ;; b <- load "num2" num2 ;;
     store set_sum (CInt.add a b));
    (a <- load "num1" num1 ;; b <- load "num2" num2 ;;
     store set_difference (CInt.sub a b));
    (a <- load "num1" num1 ;; b <- load "num2" num2 ;;
     store set_product (CInt.mul a b));
    (c <- load "num2" num2 ;;
     if CInt.ne c 0 then
       a <- load "num1" num1 ;; b <- load "num2" num2 ;;
       q <- fdiv (Binary32.of_int a) (Binary32.of_int b) ;;
       store set_division q
     else ret tt);
    printf "\nResults:\n" [];
    (a <- load "num1" num1 ;; b <- load "num2" num2 ;; s <- load "sum" sum ;;
     printf "%d + %d = %d\n" [VInt a; VInt b; VInt s]);
    (a <- load "num1" num1 ;; b <- load "num2" num2 ;;
     d <- load "difference" difference ;;
     printf "%d - %d = %d\n" [VInt a; VInt b; VInt d]);
    (a <- load "num1" num1 ;; b <- load "num2" num2 ;;
     p <- load "product" product ;;
     printf "%d * %d = %d\n" [VInt a; VInt b; VInt p]);
    (c <- load "num2" num2 ;;
     if CInt.ne c 0 then
       a <- load "num1" num1 ;; b <- load "num2" num2 ;;
       q <- load "division" division ;;
       printf "%d / %d = %.2f\n" [VInt a; VInt b; VFloat q]
     else printf "Division by zero is undefined\n" [])
  ].

Definition main : M locals Z := _ <- exec body ;; ret 0.

Definition entry : locals := mkLocals None None None None None None.

Definition run (input : list Z) : outcome locals Z :=
  main entry (mkWorld input []).

End Test2.

(* ================================================================= *)
(** ** What a run is, in closed form *)

Section Runs.
Import Stdio Machine.

(** Evaluation of a run on symbolic operands: everything is computed
    but the arithmetic on the operands and their decimal text; [guard]
    decides the test [num2 != 0] each time it is met. *)
Ltac run_with guard :=
  lazy -[CInt.add CInt.sub CInt.mul CInt.ne Binary32.of_int Binary32.div
         dec fixed2];
  repeat (rewrite guard;
          lazy -[CInt.add CInt.sub CInt.mul CInt.ne Binary32.of_int
                 Binary32.div dec fixed2]);
  reflexivity.

Lemma ne_zero_true (b : Z) : b <> 0 -> CInt.ne b 0 = true.
Proof.
  intros H. unfold CInt.ne. apply negb_true_iff, Z.eqb_neq. exact H.
Qed.

Lemma test_main_nonzero (l0 : Test.locals) (a b : Z) (rest : list Z) :
  b <> 0 ->
  Test.main l0 (mkWorld (a :: b :: rest) []) =
  Done 0
    (Test.mkLocals (Some a) (Some b)
       (Some (CInt.add a b)) (Some (CInt.sub a b)) (Some (CInt.mul a b))
       (Some (Binary32.div (Binary32.of_int a) (Binary32.of_int b))))
    (mkWorld rest
       [ EvPrintf "=== Simple Calculator Program ===\n" [];
         EvPrintf "Enter the first number: " [];
         EvScanf "%d" (Some a);
         EvPrintf "Enter the second number: " [];
         EvScanf "%d" (Some b);
         EvFdiv (Binary32.of_int a) (Binary32.of_int b);
         EvPrintf "\n=== Results ===\n" [];
         EvPrintf "Addition: %d + %d = %d\n"
           [VInt a; VInt b; VInt (CInt.add a b)];
         EvPrintf "Subtraction: %d - %d = %d\n"
           [VInt a; VInt b; VInt (CInt.sub a b)];
         EvPrintf "Multiplication: %d × %d = %d\n"
           [VInt a; VInt b; VInt (CInt.mul a b)];
         EvPrintf "Division: %d ÷ %d = %.2f\n"
           [VInt a; VInt b;
            VFloat (Binary32.div (Binary32.of_int a) (Binary32.of_int b))] ]).
Proof.
  intros Hb.
  run_with (ne_zero_true b Hb).
Qed.

Lemma ne_zero_false : CInt.ne 0 0 = false.
Proof. reflexivity. Qed.

Lemma test_main_zero (l0 : Test.locals) (a : Z) (rest : list Z) :
  Test.main l0 (mkWorld (a :: 0 :: rest) []) =
  Done 0
    (Test.mkLocals (Some a) (Some 0)
       (Some (CInt.add a 0)) (Some (CInt.sub a 0)) (Some (CInt.mul a 0))
       (Test.quotient l0))
    (mkWorld rest
       [ EvPrintf "=== Simple Calculator Program ===\n" [];
         EvPrintf "Enter the first number: " [];
         EvScanf "%d" (Some a);
         EvPrintf "Enter the second number: " [];
         EvScanf "%d" (Some 0);
         EvPrintf "\n=== Results ===\n" [];
         EvPrintf "Addition: %d + %d = %d\n"
           [VInt a; VInt 0; VInt (CInt.add a 0)];
         EvPrintf "Subtraction: %d - %d = %d\n"
           [VInt a; VInt 0; VInt (CInt.sub a 0)];
         EvPrintf "Multiplication: %d × %d = %d\n"
           [VInt a; VInt 0; VInt (CInt.mul a 0)];
         EvPrintf "Division: Cannot divide by zero!\n" [] ]).
Proof. run_with ne_zero_false. Qed.

Lemma test2_main_nonzero (l0 : Test2.locals) (a b : Z) (rest : list Z) :
  b <> 0 ->
  Test2.main l0 (mkWorld (a :: b :: rest) []) =
  Done 0
    (Test2.mkLocals (Some a) (Some b)
       (Some (CInt.add a b)) (Some (CInt.sub a b)) (Some (CInt.mul a b))
       (Some (Binary32.div (Binary32.of_int a) (Binary32.of_int b))))
    (mkWorld rest
       [ EvPrintf "Enter first number: " [];
         EvScanf "%d" (Some a);
         EvPrintf "Enter second number: " [];
         EvScanf "%d" (Some b);
         EvFdiv (Binary32.of_int a) (Binary32.of_int b);
         EvPrintf "\nResults:\n" [];
         EvPrintf "%d + %d = %d\n" [VInt a; VInt b; VInt (CInt.add a b)];
         EvPrintf "%d - %d = %d\n" [VInt a; VInt b; VInt (CInt.sub a b)];
         EvPrintf "%d * %d = %d\n" [VInt a; VInt b; VInt (CInt.mul a b)];
         EvPrintf "%d / %d = %.2f\n"
           [VInt a; VInt b;
            VFloat (Binary32.div (Binary32.of_int a) (Binary32.of_int b))] ]).
Proof. intros Hb. run_with (ne_zero_true b Hb). Qed.

Lemma test2_main_zero (l0 : Test2.locals) (a : Z) (rest : list Z) :
  Test2.main l0 (mkWorld (a :: 0 :: rest) []) =
  Done 0
    (Test2.mkLocals (Some a) (Some 0)
       (Some (CInt.add a 0)) (Some (CInt.sub a 0)) (Some (CInt.mul a 0))
       (Test2.division l0))
    (mkWorld rest
       [ EvPrintf "Enter first number: " [];
         EvScanf "%d" (Some a);
         EvPrintf "Enter second number: " [];
         EvScanf "%d" (Some 0);
         EvPrintf "\nResults:\n" [];
         EvPrintf "%d + %d = %d\n" [VInt a; VInt 0; VInt (CInt.add a 0)];
         EvPrintf "%d - %d = %d\n" [VInt a; VInt 0; VInt (CInt.sub a 0)];
         EvPrintf "%d * %d = %d\n" [VInt a; VInt 0; VInt (CInt.mul a 0)];
         EvPrintf "Division by zero is undefined\n" [] ]).
Proof. run_with ne_zero_false. Qed.

End Runs.

(* ================================================================= *)
(** ** Rounding in binary32

    The Standard Library's [binary_round_aux] shifts a mantissa right
    until it has [prec] digits, keeping a round and a sticky bit, and
    rounds to nearest, ties to even.  In the range the programs reach
    (no overflow, no subnormal) the result is within half a unit in the
    last place, hence within [2 ^ -24] of the value, relatively. *)

Section Rounding.
Import Binary32.

(** *** Number of binary digits *)

Lemma digits2_pos_bounds (p : positive) :
  2 ^ (Z.pos (digits2_pos p) - 1) <= Z.pos p < 2 ^ Z.pos (digits2_pos p).
Proof.
  induction p as [p IH | p IH |]; cbn [digits2_pos].
  - rewrite Pos2Z.inj_succ. set (d := Z.pos (digits2_pos p)) in *.
    replace (Z.succ d - 1) with (Z.succ (d - 1)) by lia.
    rewrite !Z.pow_succ_r by lia. lia.
  - rewrite Pos2Z.inj_succ. set (d := Z.pos (digits2_pos p)) in *.
    replace (Z.succ d - 1) with (Z.succ (d - 1)) by lia.
    rewrite !Z.pow_succ_r by lia. lia.
  - cbn. lia.
Qed.

Lemma Zdigits2_log2 (m : Z) : 0 < m -> Zdigits2 m = Z.log2 m + 1.
Proof.
  destruct m as [| p | p]; try lia. intros _. cbn [Zdigits2].
  pose proof (digits2_pos_bounds p) as H. set (d := Z.pos (digits2_pos p)) in *.
  rewrite (Z.log2_unique (Z.pos p) (d - 1)); [lia | lia |].
  replace (Z.succ (d - 1)) with d by lia. exact H.
Qed.

Lemma Zdigits2_unique (m d : Z) :
  0 < d -> 2 ^ (d - 1) <= m < 2 ^ d -> Zdigits2 m = d.
Proof.
  intros Hd H.
  assert (0 < m) by (pose proof (Z.pow_pos_nonneg 2 (d - 1)); lia).
  rewrite Zdigits2_log2 by assumption.
  rewrite (Z.log2_unique m (d - 1)); [lia | lia |].
  replace (Z.succ (d - 1)) with d by lia. exact H.
Qed.

Lemma Zdigits2_bounds (m : Z) :
  0 < m -> 2 ^ (Zdigits2 m - 1) <= m < 2 ^ Zdigits2 m.
Proof.
  intros H. rewrite Zdigits2_log2 by assumption.
  replace (Z.log2 m + 1 - 1) with (Z.log2 m) by lia.
  replace (Z.log2 m + 1) with (Z.succ (Z.log2 m)) by lia.
  apply Z.log2_spec. exact H.
Qed.

(** *** Shifting right keeps the fraction located *)

Lemma shr_1_nonneg (m : Z) (r s : bool) :
  0 <= m ->
  shr_1 (Build_shr_record m r s) =
  Build_shr_record (m / 2) (Z.odd m) (r || s).
Proof.
  intros Hm. destruct m as [| p | p]; [reflexivity | | lia].
  destruct p as [p | p |]; cbn [shr_1 Z.odd].
  - f_equal. rewrite Pos2Z.inj_xI.
    apply Z.div_unique with (r := 1); lia.
  - f_equal. rewrite Pos2Z.inj_xO.
    apply Z.div_unique with (r := 0); lia.
  - reflexivity.
Qed.

Lemma located_shr_1 (N D : Z) (mrs : shr_record) :
  0 <= N -> 0 < D -> located N D mrs -> located N (2 * D) (shr_1 mrs).
Proof.
  intros HN HD. destruct mrs as [m r s]. unfold located.
  cbn [shr_m shr_r shr_s]. intros (Hm & Hr & Hs).
  assert (0 <= m) by (subst m; apply Z.div_pos; lia).
  rewrite shr_1_nonneg by assumption. cbn [shr_m shr_r shr_s].
  pose proof (Z.mod_pos_bound N D HD) as HmodD.
  pose proof (Z.div_mod N D ltac:(lia)) as HdivD.
  pose proof (Z.mod_pos_bound m 2 ltac:(lia)) as Hmod2.
  pose proof (Z.div_mod m 2 ltac:(lia)) as Hdiv2.
  assert (Hq : N / (2 * D) = m / 2).
  { symmetry. apply Z.div_unique with (r := (m mod 2) * D + N mod D); nia. }
  assert (Hrem : N mod (2 * D) = (m mod 2) * D + N mod D).
  { symmetry. apply Z.mod_unique with (q := m / 2); nia. }
  rewrite Hq, Hrem. rewrite (Zmod_odd m) in *.
  split; [reflexivity |]. subst r s.
  destruct (Z.odd m); split.
  - symmetry. apply Z.leb_le. lia.
  - destruct (Z.leb_spec D (2 * (N mod D)));
      destruct (Z.eqb_spec (N mod D) 0);
      destruct (Z.eqb_spec (2 * (N mod D)) D);
      destruct (Z.eqb_spec (1 * D + N mod D) 0);
      destruct (Z.eqb_spec (2 * (1 * D + N mod D)) (2 * D));
      cbn; try reflexivity; lia.
  - symmetry. apply Z.leb_gt. lia.
  - destruct (Z.leb_spec D (2 * (N mod D)));
      destruct (Z.eqb_spec (N mod D) 0);
      destruct (Z.eqb_spec (2 * (N mod D)) D);
      destruct (Z.eqb_spec (0 * D + N mod D) 0);
      destruct (Z.eqb_spec (2 * (0 * D + N mod D)) (2 * D));
      cbn; try reflexivity; lia.
Qed.

Lemma located_iter_shr_1 (N : Z) (p : positive) :
  0 <= N ->
  forall D mrs, 0 < D -> located N D mrs ->
  located N (2 ^ Z.pos p * D) (iter_pos shr_1 p mrs).
Proof.
  intros HN.
  induction p as [p IH | p IH |]; intros D mrs HD H; cbn [iter_pos].
  - pose proof (Z.pow_pos_nonneg 2 (Z.pos p) ltac:(lia) ltac:(lia)) as Hpow.
    apply located_shr_1 in H; try assumption.
    apply IH in H; [| lia]. apply IH in H; [| nia].
    assert (E : 2 ^ Z.pos p~1 = 2 * (2 ^ Z.pos p * 2 ^ Z.pos p)).
    { rewrite <- Z.pow_add_r, <- Z.pow_succ_r by lia. f_equal. lia. }
    replace (2 ^ Z.pos p~1 * D)
      with (2 ^ Z.pos p * (2 ^ Z.pos p * (2 * D))) by (rewrite E; ring).
    exact H.
  - pose proof (Z.pow_pos_nonneg 2 (Z.pos p) ltac:(lia) ltac:(lia)) as Hpow.
    apply IH in H; [| lia]. apply IH in H; [| nia].
    assert (E : 2 ^ Z.pos p~0 = 2 ^ Z.pos p * 2 ^ Z.pos p).
    { rewrite <- Z.pow_add_r by lia. f_equal. lia. }
    replace (2 ^ Z.pos p~0 * D)
      with (2 ^ Z.pos p * (2 ^ Z.pos p * D)) by (rewrite E; ring).
    exact H.
  - change (2 ^ 1) with 2. apply located_shr_1; assumption.
Qed.

Lemma located_shr (N D : Z) (mrs : shr_record) (e n : Z) :
  0 <= N -> 0 < D -> 0 <= n -> located N D mrs ->
  located N (2 ^ n * D) (fst (shr mrs e n)) /\ snd (shr mrs e n) = e + n.
Proof.
  intros HN HD Hn H. destruct n as [| p | p]; [| | lia]; cbn [shr fst snd].
  - split; [| lia].
    replace (2 ^ 0 * D) with D by (rewrite Z.pow_0_r; lia). exact H.
  - split; [| reflexivity]. apply located_iter_shr_1; assumption.
Qed.

(** *** Rounding to nearest is within one half *)

Lemma round_nearest_even_located (N D : Z) (mrs : shr_record) :
  0 <= N -> 0 < D -> located N D mrs ->
  let m' := round_nearest_even (shr_m mrs) (loc_of_shr_record mrs) in
  2 * Z.abs (m' * D - N) <= D /\ shr_m mrs <= m' <= shr_m mrs + 1.
Proof.
  intros HN HD. destruct mrs as [m r s]. unfold located.
  cbn [shr_m shr_r shr_s]. intros (Hm & Hr & Hs).
  pose proof (Z.mod_pos_bound N D HD) as HmodD.
  pose proof (Z.div_mod N D ltac:(lia)) as HdivD.
  rewrite <- Hm in HdivD.
  destruct (Z.leb_spec D (2 * (N mod D)));
    destruct (Z.eqb_spec (N mod D) 0);
    destruct (Z.eqb_spec (2 * (N mod D)) D); subst r s;
    cbn [loc_of_shr_record round_nearest_even negb orb];
    try destruct (Z.even m); split; try lia; nia.
Qed.

Lemma shr_m_of_loc (m : Z) (l : location) :
  shr_m (shr_record_of_loc m l) = m.
Proof. destruct l as [| []]; reflexivity. Qed.

Lemma located_exact (m : Z) : located m 1 (shr_record_of_loc m loc_Exact).
Proof.
  unfold located. cbn [shr_record_of_loc shr_m shr_r shr_s].
  rewrite Z.div_1_r, Z.mod_1_r. repeat split.
Qed.

Lemma fexp_normal (e : Z) : -149 <= e - 24 -> fexp 24 128 e = e - 24.
Proof. intros H. unfold fexp, emin. lia. Qed.

(** *** [binary_round_aux] away from overflow and underflow

    From a mantissa [mx] of at least 24 digits that locates [N / D], the
    result is a normal number [m * 2 ^ (ex + k)] whose distance to
    [N / D * 2 ^ ex] is at most [2 ^ -24] times the latter. *)
Lemma binary_round_aux_spec (s : bool) (N D mx ex : Z) (lx : location) :
  0 <= N -> 0 < D ->
  located N D (shr_record_of_loc mx lx) ->
  24 <= Zdigits2 mx ->
  -149 <= Zdigits2 mx + ex - 24 < 104 ->
  exists m k,
    binary_round_aux 24 128 s mx ex lx = S754_finite s m (ex + k) /\
    2 ^ 23 <= Z.pos m < 2 ^ 24 /\
    Zdigits2 mx - 24 <= k <= Zdigits2 mx - 23 /\
    2 ^ 24 * Z.abs (Z.pos m * 2 ^ k * D - N) <= N.
Proof.
  intros HN HD Hloc Hd He.
  assert (Hmx : mx = N / D).
  { destruct Hloc as (H & _). rewrite shr_m_of_loc in H. exact H. }
  assert (Hpos : 0 < mx).
  { assert (0 <= mx) by (rewrite Hmx; apply Z.div_pos; lia).
    destruct (Z.eq_dec mx 0) as [E | E]; [| lia]. rewrite E in Hd. cbn in Hd. lia. }
  pose proof (Zdigits2_bounds mx Hpos) as Hb.
  set (d := Zdigits2 mx) in *. set (k0 := d - 24).
  assert (Hk0 : 0 <= k0) by (unfold k0; lia).
  assert (Hpow : 0 < 2 ^ k0) by (apply Z.pow_pos_nonneg; lia).
  unfold binary_round_aux, shr_fexp. fold d.
  rewrite fexp_normal by lia.
  replace (d + ex - 24 - ex) with k0 by (unfold k0; lia).
  destruct (located_shr N D (shr_record_of_loc mx lx) ex k0 HN HD Hk0 Hloc)
    as [Hloc1 He1].
  destruct (shr (shr_record_of_loc mx lx) ex k0) as [mrs1 e1].
  cbn [fst snd] in Hloc1, He1. subst e1.
  set (D1 := 2 ^ k0 * D) in *.
  assert (HD1 : 0 < D1) by (unfold D1; nia).
  destruct (round_nearest_even_located N D1 mrs1 HN HD1 Hloc1) as [Herr Hm'].
  set (m' := round_nearest_even (shr_m mrs1) (loc_of_shr_record mrs1)) in *.
  assert (Hm1 : shr_m mrs1 = mx / 2 ^ k0).
  { destruct Hloc1 as (H & _). rewrite H. unfold D1.
    rewrite Z.mul_comm, <- Z.div_div by lia. rewrite Hmx. reflexivity. }
  assert (Hm1b : 2 ^ 23 <= shr_m mrs1 < 2 ^ 24).
  { rewrite Hm1.
    assert (E1 : 2 ^ (d - 1) = 2 ^ 23 * 2 ^ k0).
    { rewrite <- Z.pow_add_r by lia. f_equal. unfold k0. lia. }
    assert (E2 : 2 ^ d = 2 ^ 24 * 2 ^ k0).
    { rewrite <- Z.pow_add_r by lia. f_equal. unfold k0. lia. }
    split.
    - apply Z.div_le_lower_bound; lia.
    - apply Z.div_lt_upper_bound; lia. }
  assert (HN1 : shr_m mrs1 * D1 <= N).
  { destruct Hloc1 as (H & _). rewrite H.
    pose proof (Z.mul_div_le N D1 HD1). lia. }
  assert (Hrel : 2 ^ 24 * Z.abs (m' * D1 - N) <= N).
  { change (2 ^ 24) with (2 * 2 ^ 23).
    change (2 ^ 23) with 8388608 in *. nia. }
  destruct (Z.eq_dec m' (2 ^ 24)) as [Etop | Etop].
  - (* the rounded mantissa has 25 digits: one more shift *)
    rewrite Etop. change (Zdigits2 (2 ^ 24)) with 25.
    rewrite fexp_normal by lia.
    replace (25 + (ex + k0) - 24 - (ex + k0)) with 1 by lia.
    cbn [shr shr_record_of_loc iter_pos shr_1 shr_m].
    change (2 ^ 24) with 16777216. cbn [shr_1 shr_m].
    replace (ex + k0 + 1 <=? 128 - 24) with true
      by (symmetry; apply Z.leb_le; unfold k0; lia).
    exists 8388608%positive, (k0 + 1). split; [f_equal; lia |].
    split; [cbn; lia |]. split; [unfold k0; lia |].
    rewrite Z.pow_add_r by lia. change (2 ^ 1) with 2.
    replace (8388608 * (2 ^ k0 * 2) * D) with (2 ^ 24 * D1)
      by (unfold D1; change (2 ^ 24) with 16777216; ring).
    rewrite <- Etop. exact Hrel.
  - assert (Hm'b : 2 ^ 23 <= m' < 2 ^ 24) by lia.
    rewrite (Zdigits2_unique m' 24) by (cbn; lia).
    rewrite fexp_normal by lia.
    replace (24 + (ex + k0) - 24 - (ex + k0)) with 0 by lia.
    cbn [shr shr_record_of_loc shr_m].
    destruct m' as [| p | p] eqn:Ep; [cbn in Hm'b; lia | | cbn in Hm'b; lia].
    replace (ex + k0 <=? 128 - 24) with true
      by (symmetry; apply Z.leb_le; unfold k0; lia).
    exists p, k0. split; [reflexivity |]. split; [exact Hm'b |].
    split; [unfold k0; lia |].
    replace (Z.pos p * 2 ^ k0 * D) with (Z.pos p * D1) by (unfold D1; ring).
    exact Hrel.
Qed.

Lemma iter_xO_pow2 (p j : positive) :
  Z.pos (Pos.iter xO p j) = Z.pos p * 2 ^ Z.pos j.
Proof.
  induction j as [| j IH] using Pos.peano_ind.
  - cbn [Pos.iter]. rewrite Pos2Z.inj_xO. change (2 ^ 1) with 2. lia.
  - rewrite Pos.iter_succ, Pos2Z.inj_xO, IH, Pos2Z.inj_succ.
    rewrite Z.pow_succ_r by lia. ring.
Qed.

(** *** [(float) n] for a positive integer below [2 ^ 32] *)
Lemma binary_round_int_spec (s : bool) (p : positive) :
  Z.pos p < 2 ^ 32 ->
  exists m j k,
    binary_round 24 128 s p 0 = S754_finite s m (k - j) /\
    2 ^ 23 <= Z.pos m < 2 ^ 24 /\
    0 <= j <= 23 /\ 0 <= k <= 9 /\
    2 ^ 24 * Z.abs (Z.pos m * 2 ^ k - Z.pos p * 2 ^ j) <= Z.pos p * 2 ^ j.
Proof.
  intros Hp.
  pose proof (Zdigits2_bounds (Z.pos p) ltac:(lia)) as Hb.
  cbn [Zdigits2] in Hb. set (d := Z.pos (digits2_pos p)) in *.
  assert (Hd1 : 1 <= d) by (unfold d; lia).
  assert (Hd32 : d <= 32).
  { destruct (Z_le_gt_dec d 32) as [H | H]; [exact H |].
    assert (2 ^ 32 <= 2 ^ (d - 1)) by (apply Z.pow_le_mono_r; lia). lia. }
  unfold binary_round. fold d. rewrite fexp_normal by lia.
  unfold shl_align.
  destruct (d + 0 - 24 - 0) as [| q | j] eqn:Ed.
  - (* exactly 24 digits *)
    destruct (binary_round_aux_spec s (Z.pos p) 1 (Z.pos p) 0 loc_Exact)
      as (m & k & Hr & Hm & Hk & Herr); try lia.
    + apply located_exact.
    + cbn [Zdigits2]. fold d. lia.
    + cbn [Zdigits2]. fold d. lia.
    + cbn [Zdigits2] in Hk. fold d in Hk.
      exists m, 0, k. rewrite Hr. split; [f_equal; lia |].
      split; [exact Hm |]. split; [lia |]. split; [lia |].
      rewrite Z.pow_0_r, !Z.mul_1_r in *. exact Herr.
  - (* more than 24 digits *)
    destruct (binary_round_aux_spec s (Z.pos p) 1 (Z.pos p) 0 loc_Exact)
      as (m & k & Hr & Hm & Hk & Herr); try lia.
    + apply located_exact.
    + cbn [Zdigits2]. fold d. lia.
    + cbn [Zdigits2]. fold d. lia.
    + cbn [Zdigits2] in Hk. fold d in Hk.
      exists m, 0, k. rewrite Hr. split; [f_equal; lia |].
      split; [exact Hm |]. split; [lia |]. split; [lia |].
      rewrite Z.pow_0_r, !Z.mul_1_r in *. exact Herr.
  - (* fewer than 24 digits: the mantissa is padded and nothing is lost *)
    assert (Hj : Z.pos j = 24 - d) by lia.
    assert (Hmz : Z.pos (Pos.iter xO p j) = Z.pos p * 2 ^ (24 - d))
      by (rewrite iter_xO_pow2, Hj; reflexivity).
    assert (Hpow : 0 < 2 ^ (24 - d)) by (apply Z.pow_pos_nonneg; lia).
    assert (E1 : 2 ^ 23 = 2 ^ (d - 1) * 2 ^ (24 - d)).
    { rewrite <- Z.pow_add_r by lia. f_equal. lia. }
    assert (E2 : 2 ^ 24 = 2 ^ d * 2 ^ (24 - d)).
    { rewrite <- Z.pow_add_r by lia. f_equal. lia. }
    assert (Hdig : Zdigits2 (Z.pos (Pos.iter xO p j)) = 24).
    { apply Zdigits2_unique; [lia |]. rewrite Hmz.
      replace (24 - 1) with 23 by lia. rewrite E1, E2. nia. }
    destruct (binary_round_aux_spec s (Z.pos (Pos.iter xO p j)) 1
                (Z.pos (Pos.iter xO p j)) (d + 0 - 24) loc_Exact)
      as (m & k & Hr & Hm & Hk & Herr); try lia.
    + apply located_exact.
    + rewrite Hdig in Hk.
      exists m, (24 - d), k. rewrite Hr. split; [f_equal; lia |].
      split; [exact Hm |]. split; [lia |]. split; [lia |].
      rewrite Hmz, !Z.mul_1_r in Herr. exact Herr.
Qed.

(** The location [SFdiv] computes from the remainder. *)
Lemma new_location_located (N D : Z) :
  0 <= N -> 0 < D ->
  located N D (shr_record_of_loc (N / D) (new_location D (N mod D))).
Proof.
  intros HN HD.
  pose proof (Z.mod_pos_bound N D HD) as Hmod.
  unfold located. rewrite shr_m_of_loc. split; [reflexivity |].
  unfold new_location, new_location_even, new_location_odd.
  destruct (Z.even D) eqn:Ev.
  - destruct (Z.eqb_spec (N mod D) 0) as [E0 | E0].
    + rewrite E0. cbn [shr_record_of_loc shr_r shr_s].
      destruct (Z.leb_spec D (2 * 0)); [lia |].
      destruct (Z.eqb_spec (2 * 0) D); [lia |]. split; reflexivity.
    + destruct (Z.compare_spec (2 * (N mod D)) D) as [E | E | E];
        cbn [shr_record_of_loc shr_r shr_s];
        destruct (Z.leb_spec D (2 * (N mod D)));
        destruct (Z.eqb_spec (2 * (N mod D)) D); try lia; split; reflexivity.
  - assert (Hodd : 2 * (N mod D) <> D).
    { intros E. rewrite <- E, Z.even_mul in Ev. discriminate. }
    destruct (Z.eqb_spec (N mod D) 0) as [E0 | E0].
    + rewrite E0. cbn [shr_record_of_loc shr_r shr_s].
      destruct (Z.leb_spec D (2 * 0)); [lia |].
      destruct (Z.eqb_spec (2 * 0) D); [lia |]. split; reflexivity.
    + destruct (Z.compare_spec (2 * (N mod D) + 1) D) as [E | E | E];
        cbn [shr_record_of_loc shr_r shr_s];
        destruct (Z.leb_spec D (2 * (N mod D)));
        destruct (Z.eqb_spec (2 * (N mod D)) D); try lia; split; reflexivity.
Qed.

(** *** Division of two normal numbers with small exponents *)
Lemma SFdiv_finite_spec (sx sy : bool) (mx my : positive) (ex ey : Z) :
  2 ^ 23 <= Z.pos mx < 2 ^ 24 ->
  2 ^ 23 <= Z.pos my < 2 ^ 24 ->
  -23 <= ex <= 9 -> -23 <= ey <= 9 ->
  exists m k,
    SFdiv 24 128 (S754_finite sx mx ex) (S754_finite sy my ey) =
      S754_finite (xorb sx sy) m (ex - ey - 24 + k) /\
    2 ^ 23 <= Z.pos m < 2 ^ 24 /\
    0 <= k <= 2 /\
    2 ^ 24 * Z.abs (Z.pos m * 2 ^ k * Z.pos my - Z.pos mx * 2 ^ 24)
      <= Z.pos mx * 2 ^ 24.
Proof.
  intros Hmx Hmy Hex Hey.
  cbn [SFdiv]. unfold SFdiv_core_binary.
  rewrite (Zdigits2_unique (Z.pos mx) 24), (Zdigits2_unique (Z.pos my) 24)
    by (cbn; lia).
  replace (24 + ex - (24 + ey)) with (ex - ey) by lia.
  rewrite fexp_normal by lia.
  replace (Z.min (ex - ey - 24) (ex - ey)) with (ex - ey - 24) by lia.
  replace (ex - ey - (ex - ey - 24)) with 24 by lia.
  rewrite Z.shiftl_mul_pow2 by lia.
  set (N := Z.pos mx * 2 ^ 24). set (D := Z.pos my).
  assert (HN : 0 <= N) by (unfold N; lia).
  assert (HD : 0 < D) by (unfold D; lia).
  assert (Hq : Z.div_eucl N D = (N / D, N mod D)).
  { unfold Z.div, Z.modulo. destruct (Z.div_eucl N D). reflexivity. }
  rewrite Hq.
  assert (Hqb : 2 ^ 23 <= N / D < 2 ^ 25).
  { change (2 ^ 23) with 8388608 in *. change (2 ^ 24) with 16777216 in *.
    change (2 ^ 25) with 33554432. unfold N, D. split.
    - apply Z.div_le_lower_bound; lia.
    - apply Z.div_lt_upper_bound; lia. }
  assert (Hdq : 24 <= Zdigits2 (N / D) <= 25).
  { destruct (Z_lt_le_dec (N / D) (2 ^ 24)).
    - rewrite (Zdigits2_unique (N / D) 24); [lia | lia |].
      change (2 ^ (24 - 1)) with (2 ^ 23). lia.
    - rewrite (Zdigits2_unique (N / D) 25); [lia | lia |].
      change (2 ^ (25 - 1)) with (2 ^ 24). lia. }
  destruct (binary_round_aux_spec (xorb sx sy) N D (N / D) (ex - ey - 24)
              (new_location D (N mod D)))
    as (m & k & Hr & Hm & Hk & Herr); try lia.
  - apply new_location_located; assumption.
  - exists m, k. rewrite Hr. split; [reflexivity |].
    split; [exact Hm |]. split; [lia |]. exact Herr.
Qed.

End Rounding.

(* ================================================================= *)
(** ** The same bounds over the rationals *)

Section Rationals.
Import Binary32.
#[local] Open Scope Q_scope.

Lemma pow2_pos (e : Z) : 0 < 2 ^ e.
Proof. apply Qpower_0_lt. reflexivity. Qed.

Lemma pow2_add (a b : Z) : 2 ^ (a + b) == 2 ^ a * 2 ^ b.
Proof. apply Qpower_plus. discriminate. Qed.

Lemma pow2_inject (k : Z) : (0 <= k)%Z -> inject_Z (2 ^ k) == 2 ^ k.
Proof. intros H. rewrite Zpower_Qpower by exact H. reflexivity. Qed.

Lemma mag_pos (m : positive) (e : Z) : 0 < mag m e.
Proof.
  unfold mag. apply Qmult_lt_0_compat; [reflexivity | apply pow2_pos].
Qed.

(** From the integer form of a relative error bound to the rational one. *)
Lemma rel_bound_Q (t n : Z) :
  (2 ^ 24 * Z.abs (t - n) <= n)%Z ->
  (1 - u) * inject_Z n <= inject_Z t <= (1 + u) * inject_Z n.
Proof.
  intros H. change (2 ^ 24)%Z with 16777216%Z in H.
  assert (H1 : (16777216 * n <= 16777216 * t + n)%Z) by lia.
  assert (H2 : (16777216 * t <= 16777216 * n + n)%Z) by lia.
  rewrite Zle_Qle in H1, H2.
  rewrite !inject_Z_plus, !inject_Z_mult in H1, H2.
  change (inject_Z 16777216) with (16777216 # 1) in *. unfold u.
  split; lra.
Qed.

Lemma int_conversion_Q (s : bool) (p : positive) :
  (Z.pos p < 2 ^ 32)%Z ->
  exists m e,
    binary_round 24 128 s p 0 = S754_finite s m e /\
    (2 ^ 23 <= Z.pos m < 2 ^ 24)%Z /\ (-23 <= e <= 9)%Z /\
    (1 - u) * inject_Z (Z.pos p) <= mag m e <= (1 + u) * inject_Z (Z.pos p).
Proof.
  intros Hp.
  destruct (binary_round_int_spec s p Hp) as (m & j & k & Hr & Hm & Hj & Hk & Herr).
  exists m, (k - j)%Z. split; [exact Hr |]. split; [exact Hm |].
  split; [lia |].
  apply rel_bound_Q in Herr.
  rewrite !inject_Z_mult, !pow2_inject in Herr by lia.
  unfold mag. replace (k - j)%Z with (k + - j)%Z by lia.
  rewrite pow2_add, Qpower_opp.
  pose proof (pow2_pos j) as Hjpos.
  set (P := inject_Z (Z.pos p)) in *. set (M := inject_Z (Z.pos m)) in *.
  set (J := 2 ^ j) in *. set (K := 2 ^ k) in *.
  assert (E : M * (K * / J) == (M * K) / J) by (field; lra).
  rewrite E.
  destruct Herr as [Hlo Hhi]. split.
  - apply Qle_shift_div_l; [exact Hjpos |]. lra.
  - apply Qle_shift_div_r; [exact Hjpos |]. lra.
Qed.

Lemma division_Q (sx sy : bool) (mx my : positive) (ex ey : Z) :
  (2 ^ 23 <= Z.pos mx < 2 ^ 24)%Z ->
  (2 ^ 23 <= Z.pos my < 2 ^ 24)%Z ->
  (-23 <= ex <= 9)%Z -> (-23 <= ey <= 9)%Z ->
  exists m e,
    SFdiv 24 128 (S754_finite sx mx ex) (S754_finite sy my ey) =
      S754_finite (xorb sx sy) m e /\
    (1 - u) * mag mx ex <= mag m e * mag my ey <= (1 + u) * mag mx ex.
Proof.
  intros Hmx Hmy Hex Hey.
  destruct (SFdiv_finite_spec sx sy mx my ex ey Hmx Hmy Hex Hey)
    as (m & k & Hr & Hm & Hk & Herr).
  exists m, (ex - ey - 24 + k)%Z. split; [exact Hr |].
  apply rel_bound_Q in Herr.
  rewrite !inject_Z_mult, !pow2_inject in Herr by lia.
  unfold mag.
  replace (ex - ey - 24 + k)%Z with (ex + (- ey + (- 24 + k)))%Z by lia.
  rewrite !pow2_add, !Qpower_opp.
  pose proof (pow2_pos ex) as Hexpos. pose proof (pow2_pos ey) as Heypos.
  set (X := inject_Z (Z.pos mx)) in *. set (Y := inject_Z (Z.pos my)) in *.
  set (M := inject_Z (Z.pos m)) in *.
  set (EX := 2 ^ ex) in *. set (EY := 2 ^ ey) in *. set (K := 2 ^ k) in *.
  change (2 ^ 24) with (16777216 # 1) in *.
  assert (E : M * (EX * (/ EY * (/ (16777216 # 1) * K))) * (Y * EY)
              == (M * K * Y) * (EX / (16777216 # 1))) by (field; lra).
  rewrite E.
  assert (E2 : X * EX == (X * (16777216 # 1)) * (EX / (16777216 # 1)))
    by (field; lra).
  rewrite !E2.
  assert (Hc : 0 < EX / (16777216 # 1)).
  { apply Qlt_shift_div_l; [reflexivity | lra]. }
  set (C := EX / (16777216 # 1)) in *.
  destruct Herr as [Hlo Hhi]. split.
  - rewrite Qmult_assoc. apply Qmult_le_compat_r; [exact Hlo | lra].
  - rewrite Qmult_assoc. apply Qmult_le_compat_r; [exact Hhi | lra].
Qed.

Lemma compose_error (A B fa fb fq : Q) :
  0 < A -> 0 < B -> 0 < fq ->
  (1 - u) * A <= fa <= (1 + u) * A ->
  (1 - u) * B <= fb <= (1 + u) * B ->
  (1 - u) * fa <= fq * fb <= (1 + u) * fa ->
  Qabs (fq - A / B) <= (1 # 4194304) * (A / B).
Proof.
  intros HA HB Hq [Ha1 Ha2] [Hb1 Hb2] [Hq1 Hq2]. unfold u in *.
  assert (P1 : 0 <= fq * (fb - (1 - (1 # 16777216)) * B))
    by (apply Qmult_le_0_compat; lra).
  assert (P2 : 0 <= fq * ((1 + (1 # 16777216)) * B - fb))
    by (apply Qmult_le_0_compat; lra).
  assert (Hup : fq * B <= (1 + (1 # 4194304)) * A) by lra.
  assert (Hlo : (1 - (1 # 4194304)) * A <= fq * B) by lra.
  set (R := A / B).
  assert (ER : A == R * B) by (unfold R; field; lra).
  rewrite ER in Hup, Hlo.
  apply Qabs_Qle_condition. split.
  - apply (Qmult_lt_0_le_reg_r _ _ B HB). lra.
  - apply (Qmult_lt_0_le_reg_r _ _ B HB). lra.
Qed.

(** The quotient of the conversions of two positive integers. *)
Lemma division_of_conversions (sa sb : bool) (pa pb : positive) :
  (Z.pos pa < 2 ^ 32)%Z -> (Z.pos pb < 2 ^ 32)%Z ->
  exists m e,
    SFdiv 24 128 (binary_round 24 128 sa pa 0) (binary_round 24 128 sb pb 0)
      = S754_finite (xorb sa sb) m e /\
    Qabs (mag m e - inject_Z (Z.pos pa) / inject_Z (Z.pos pb))
      <= (1 # 4194304) * (inject_Z (Z.pos pa) / inject_Z (Z.pos pb)).
Proof.
  intros Hpa Hpb.
  destruct (int_conversion_Q sa pa Hpa) as (ma & ea & Ra & Hma & Hea & Qa).
  destruct (int_conversion_Q sb pb Hpb) as (mb & eb & Rb & Hmb & Heb & Qb).
  destruct (division_Q sa sb ma mb ea eb Hma Hmb Hea Heb)
    as (m & e & Rq & Qq).
  exists m, e. rewrite Ra, Rb. split; [exact Rq |].
  apply (compose_error _ _ (mag ma ea) (mag mb eb)); try assumption.
  - reflexivity.
  - reflexivity.
  - apply mag_pos.
Qed.

(** *** Signs *)

Lemma of_int_nonzero (a : Z) :
  a <> 0%Z ->
  of_int a = binary_round 24 128 (a <? 0)%Z (Z.to_pos (Z.abs a)) 0.
Proof. destruct a; [congruence | reflexivity | reflexivity]. Qed.

Lemma inject_Z_signed (a : Z) :
  inject_Z a == cond_Qopp (a <? 0)%Z (inject_Z (Z.abs a)).
Proof. destruct a; reflexivity. Qed.

Lemma signed_difference (sa sb : bool) (x A B : Q) :
  ~ B == 0 ->
  Qabs (cond_Qopp (xorb sa sb) x - cond_Qopp sa A / cond_Qopp sb B)
  == Qabs (x - A / B).
Proof.
  intros HB. assert (HB' : ~ - B == 0) by (intros E; apply HB; lra).
  destruct sa, sb; cbn [xorb cond_Qopp].
  - apply Qabs_wd. field. exact HB.
  - rewrite <- Qabs_opp. apply Qabs_wd. field. exact HB.
  - rewrite <- Qabs_opp. apply Qabs_wd. field. exact HB.
  - reflexivity.
Qed.

Lemma signed_ratio (sa sb : bool) (A B : Q) :
  0 <= A -> 0 < B -> Qabs (cond_Qopp sa A / cond_Qopp sb B) == A / B.
Proof.
  intros HA HB.
  assert (Hpos : 0 <= A / B).
  { apply Qle_shift_div_l; [exact HB | lra]. }
  assert (HB' : ~ B == 0) by lra.
  rewrite <- (Qabs_pos (A / B)) by exact Hpos.
  destruct sa, sb; cbn [cond_Qopp].
  - apply Qabs_wd. field. exact HB'.
  - rewrite <- (Qabs_opp (A / B)). apply Qabs_wd. field. exact HB'.
  - rewrite <- (Qabs_opp (A / B)). apply Qabs_wd. field. exact HB'.
  - reflexivity.
Qed.

(** *** The quotient of two [int]s *)

Lemma quotient_error (a b : Z) :
  (- 2 ^ 31 <= a <= 2 ^ 31 - 1)%Z -> (- 2 ^ 31 <= b <= 2 ^ 31 - 1)%Z ->
  b <> 0%Z ->
  is_finite (div (of_int a) (of_int b)) = true /\
  Qabs (to_Q (div (of_int a) (of_int b)) - inject_Z a / inject_Z b)
    <= (1 # 4194304) * Qabs (inject_Z a / inject_Z b).
Proof.
  intros Ha Hb Hb0.
  change (2 ^ 31)%Z with 2147483648%Z in *.
  assert (Hpb : (Z.pos (Z.to_pos (Z.abs b)) = Z.abs b)%Z)
    by (apply Z2Pos.id; lia).
  rewrite (of_int_nonzero b Hb0). unfold div, prec, emax.
  destruct (Z.eq_dec a 0) as [Ha0 | Ha0].
  - (* a zero dividend: a signed zero *)
    subst a. cbn [of_int binary_normalize].
    destruct (int_conversion_Q (b <? 0)%Z (Z.to_pos (Z.abs b)))
      as (mb & eb & Rb & _).
    { rewrite Hpb. change (2 ^ 32)%Z with 4294967296%Z. lia. }
    rewrite Rb. cbn [SFdiv is_finite to_Q]. split; [reflexivity |].
    unfold Qdiv. rewrite Qmult_0_l. cbn. discriminate.
  - assert (Hpa : (Z.pos (Z.to_pos (Z.abs a)) = Z.abs a)%Z)
      by (apply Z2Pos.id; lia).
    rewrite (of_int_nonzero a Ha0).
    destruct (division_of_conversions (a <? 0)%Z (b <? 0)%Z
                (Z.to_pos (Z.abs a)) (Z.to_pos (Z.abs b)))
      as (m & e & R & Hq).
    { rewrite Hpa. change (2 ^ 32)%Z with 4294967296%Z. lia. }
    { rewrite Hpb. change (2 ^ 32)%Z with 4294967296%Z. lia. }
    rewrite R. cbn [is_finite to_Q]. split; [reflexivity |].
    rewrite Hpa, Hpb in Hq.
    assert (HB : 0 < inject_Z (Z.abs b)).
    { change 0 with (inject_Z 0). rewrite <- Zlt_Qlt. lia. }
    assert (HA : 0 <= inject_Z (Z.abs a)).
    { change 0 with (inject_Z 0). rewrite <- Zle_Qle. lia. }
    rewrite (inject_Z_signed a), (inject_Z_signed b).
    rewrite signed_difference by lra.
    rewrite signed_ratio by assumption.
    exact Hq.
Qed.

End Rationals.

(* ================================================================= *)
(** ** Integer results *)

Section IntegerResults.
Import Stdio Machine.

Lemma wrap_in_range (z : Z) : CInt.in_range z = true -> CInt.wrap z = z.
Proof.
  unfold CInt.in_range, CInt.INT_MIN, CInt.INT_MAX, CInt.wrap.
  intros H. apply andb_true_iff in H. destruct H as [Hlo Hhi].
  apply Z.leb_le in Hlo, Hhi.
  rewrite Z.mod_small by lia. lia.
Qed.

(** C1, as amended.  Whenever [a + b], [a - b] and [a * b] are values of
    type [int], both programs end with [sum], [difference] and [product]
    holding exactly these numbers, whether or not [b] is zero, and the
    three arithmetic [printf] calls are given the operands followed by
    these numbers. *)
Theorem arithmetic_exact_without_overflow (a b : Z) (rest : list Z) :
  CInt.in_range (a + b) = true ->
  CInt.in_range (a - b) = true ->
  CInt.in_range (a * b) = true ->
  (exists l w, Test.run (a :: b :: rest) = Done 0 l w /\
     Test.sum l = Some (a + b) /\
     Test.difference l = Some (a - b) /\
     Test.product l = Some (a * b) /\
     In (EvPrintf "Addition: %d + %d = %d\n" [VInt a; VInt b; VInt (a + b)])
        (trace w) /\
     In (EvPrintf "Subtraction: %d - %d = %d\n" [VInt a; VInt b; VInt (a - b)])
        (trace w) /\
     In (EvPrintf "Multiplication: %d × %d = %d\n"
           [VInt a; VInt b; VInt (a * b)])
        (trace w)) /\
  (exists l w, Test2.run (a :: b :: rest) = Done 0 l w /\
     Test2.sum l = Some (a + b) /\
     Test2.difference l = Some (a - b) /\
     Test2.product l = Some (a * b) /\
     In (EvPrintf "%d + %d = %d\n" [VInt a; VInt b; VInt (a + b)]) (trace w) /\
     In (EvPrintf "%d - %d = %d\n" [VInt a; VInt b; VInt (a - b)]) (trace w) /\
     In (EvPrintf "%d * %d = %d\n" [VInt a; VInt b; VInt (a * b)]) (trace w)).
Proof.
  intros Hs Hd Hp.
  assert (Es : CInt.add a b = a + b) by (apply wrap_in_range; exact Hs).
  assert (Ed : CInt.sub a b = a - b) by (apply wrap_in_range; exact Hd).
  assert (Ep : CInt.mul a b = a * b) by (apply wrap_in_range; exact Hp).
  unfold Test.run, Test2.run.
  destruct (Z.eq_dec b 0) as [Hb | Hb].
  - subst b. rewrite test_main_zero, test2_main_zero. rewrite Es, Ed, Ep.
    split; do 2 eexists; (split; [reflexivity|]); cbn [trace Test.sum
      Test.difference Test.product Test2.sum Test2.difference Test2.product];
      repeat split; cbn [In]; tauto.
  - rewrite (test_main_nonzero _ _ _ _ Hb), (test2_main_nonzero _ _ _ _ Hb).
    rewrite Es, Ed, Ep.
    split; do 2 eexists; (split; [reflexivity|]); cbn [trace Test.sum
      Test.difference Test.product Test2.sum Test2.difference Test2.product];
      repeat split; cbn [In]; tauto.
Qed.

Lemma arithmetic_exact_without_overflow_witness :
  (exists l w, Test.run [10; 5] = Done 0 l w /\
     Test.sum l = Some (10 + 5) /\
     Test.difference l = Some (10 - 5) /\
     Test.product l = Some (10 * 5) /\
     In (EvPrintf "Addition: %d + %d = %d\n" [VInt 10; VInt 5; VInt (10 + 5)])
        (trace w) /\
     In (EvPrintf "Subtraction: %d - %d = %d\n"
           [VInt 10; VInt 5; VInt (10 - 5)])
        (trace w) /\
     In (EvPrintf "Multiplication: %d × %d = %d\n"
           [VInt 10; VInt 5; VInt (10 * 5)])
        (trace w)) /\
  (exists l w, Test2.run [10; 5] = Done 0 l w /\
     Test2.sum l = Some (10 + 5) /\
     Test2.difference l = Some (10 - 5) /\
     Test2.product l = Some (10 * 5) /\
     In (EvPrintf "%d + %d = %d\n" [VInt 10; VInt 5; VInt (10 + 5)]) (trace w) /\
     In (EvPrintf "%d - %d = %d\n" [VInt 10; VInt 5; VInt (10 - 5)]) (trace w) /\
     In (EvPrintf "%d * %d = %d\n" [VInt 10; VInt 5; VInt (10 * 5)]) (trace w)).
Proof.
  apply (arithmetic_exact_without_overflow 10 5 []); reflexivity.
Defined.

(** C1 as stated fails: [INT_MAX] and [1] are both values of type [int],
    and on them neither program ends with [sum] equal to [INT_MAX + 1];
    [sum] ends as [INT_MIN], and that is what the addition line is
    given. *)
Lemma sum_wraps_at_int_max :
  CInt.in_range 2147483647 = true /\ CInt.in_range 1 = true /\
  ~ (exists l w, Test.run [2147483647; 1] = Done 0 l w /\
       Test.sum l = Some (2147483647 + 1)) /\
  ~ (exists l w, Test2.run [2147483647; 1] = Done 0 l w /\
       Test2.sum l = Some (2147483647 + 1)) /\
  (exists l w, Test.run [2147483647; 1] = Done 0 l w /\
     Test.sum l = Some (-2147483648) /\
     In (EvPrintf "Addition: %d + %d = %d\n"
           [VInt 2147483647; VInt 1; VInt (-2147483648)]) (trace w)) /\
  (exists l w, Test2.run [2147483647; 1] = Done 0 l w /\
     Test2.sum l = Some (-2147483648) /\
     In (EvPrintf "%d + %d = %d\n"
           [VInt 2147483647; VInt 1; VInt (-2147483648)]) (trace w)).
Proof.
  split; [reflexivity |]. split; [reflexivity |].
  split; [| split].
  - intros (l & w & Hrun & Hsum). vm_compute in Hrun.
    injection Hrun as <- _. discriminate Hsum.
  - intros (l & w & Hrun & Hsum). vm_compute in Hrun.
    injection Hrun as <- _. discriminate Hsum.
  - split; do 2 eexists; (split; [vm_compute; reflexivity |]);
      (split; [reflexivity |]); cbn [trace In]; tauto.
Qed.

End IntegerResults.

(* ================================================================= *)
(** ** The zero divisor *)

Section ZeroDivisor.
Import Stdio Machine.

Lemma append_assoc (s t u : string) : (s ++ t) ++ u = s ++ (t ++ u).
Proof. induction s as [| c s IH]; simpl; [reflexivity | now rewrite IH]. Qed.

Ltac same_text := simpl; repeat (rewrite append_assoc; simpl); reflexivity.

(** C2.  With [0] as second operand each program ends normally, its
    last [printf] is the division message, no [printf] call is given a
    [float], no single-precision division is performed, and standard
    output is exactly the prompts, the header, the three integer lines
    and the message. *)
Theorem zero_divisor_message_only (a : Z) (rest : list Z) :
  (exists l w, Test.run (a :: 0 :: rest) = Done 0 l w /\
     last (printfs (trace w)) ("", []) =
       ("Division: Cannot divide by zero!\n", []) /\
     prints_a_float (trace w) = false /\
     divisions (trace w) = [] /\
     stdout (trace w) =
       c_str "=== Simple Calculator Program ===\n" ++
       "Enter the first number: " ++ "Enter the second number: " ++
       c_str "\n=== Results ===\n" ++
       "Addition: " ++ dec a ++ " + " ++ dec 0 ++ " = " ++
         dec (CInt.add a 0) ++ c_str "\n" ++
       "Subtraction: " ++ dec a ++ " - " ++ dec 0 ++ " = " ++
         dec (CInt.sub a 0) ++ c_str "\n" ++
       "Multiplication: " ++ dec a ++ " × " ++ dec 0 ++ " = " ++
         dec (CInt.mul a 0) ++ c_str "\n" ++
       c_str "Division: Cannot divide by zero!\n") /\
  (exists l w, Test2.run (a :: 0 :: rest) = Done 0 l w /\
     last (printfs (trace w)) ("", []) =
       ("Division by zero is undefined\n", []) /\
     prints_a_float (trace w) = false /\
     divisions (trace w) = [] /\
     stdout (trace w) =
       "Enter first number: " ++ "Enter second number: " ++
       c_str "\nResults:\n" ++
       dec a ++ " + " ++ dec 0 ++ " = " ++ dec (CInt.add a 0) ++ c_str "\n" ++
       dec a ++ " - " ++ dec 0 ++ " = " ++ dec (CInt.sub a 0) ++ c_str "\n" ++
       dec a ++ " * " ++ dec 0 ++ " = " ++ dec (CInt.mul a 0) ++ c_str "\n" ++
       c_str "Division by zero is undefined\n").
Proof.
  unfold Test.run, Test2.run. rewrite test_main_zero, test2_main_zero.
  split; do 2 eexists; (split; [reflexivity|]); cbn [trace];
    (repeat split; [reflexivity .. | same_text]).
Qed.

End ZeroDivisor.

(* ================================================================= *)
(** ** Termination and exit status *)

Section ExitStatus.
Import Stdio Machine.

(** C5.  [main] is a total function of the locals at entry and of the
    input, so every run ends.  Given two [int]s on input, zero divisor
    or not, the run ends normally and returns [0], having read exactly
    the two [int]s and made one pass over the report: eight [printf]
    calls in [test.c] (title, two prompts, header, four lines) and seven
    in [test2.c], which has no title. *)
Theorem exit_status_zero (a b : Z) (rest : list Z) :
  (exists l w, Test.run (a :: b :: rest) = Done 0 l w /\
     stdin w = rest /\ List.length (printfs (trace w)) = 8%nat) /\
  (exists l w, Test2.run (a :: b :: rest) = Done 0 l w /\
     stdin w = rest /\ List.length (printfs (trace w)) = 7%nat).
Proof.
  unfold Test.run, Test2.run.
  destruct (Z.eq_dec b 0) as [Hb | Hb].
  - subst b. rewrite test_main_zero, test2_main_zero.
    split; do 2 eexists; repeat split; reflexivity.
  - rewrite (test_main_nonzero _ _ _ _ Hb), (test2_main_nonzero _ _ _ _ Hb).
    split; do 2 eexists; repeat split; reflexivity.
Qed.

End ExitStatus.

(* ================================================================= *)
(** ** The two scenarios of the specification *)

Section Scenarios.
Import Stdio Machine.

(** C6.  On [10] and [5] the report shows 15, 5, 50 and 2.00. *)
Theorem scenario_10_5 :
  (exists l w, Test.run [10; 5] = Done 0 l w /\
     stdout (trace w) =
       c_str "=== Simple Calculator Program ===\nEnter the first number: Enter the second number: \n=== Results ===\nAddition: 10 + 5 = 15\nSubtraction: 10 - 5 = 5\nMultiplication: 10 × 5 = 50\nDivision: 10 ÷ 5 = 2.00\n") /\
  (exists l w, Test2.run [10; 5] = Done 0 l w /\
     stdout (trace w) =
       c_str "Enter first number: Enter second number: \nResults:\n10 + 5 = 15\n10 - 5 = 5\n10 * 5 = 50\n10 / 5 = 2.00\n").
Proof.
  split; do 2 eexists; (split; [vm_compute; reflexivity|]);
    vm_compute; reflexivity.
Qed.

(** C7.  On [7] and [0] the report shows 7, 7, 0 and, in place of a
    quotient, the message of the program: "Cannot divide by zero!" in
    [test.c], "Division by zero is undefined" in [test2.c]. *)
Theorem scenario_7_0 :
  (exists l w, Test.run [7; 0] = Done 0 l w /\
     stdout (trace w) =
       c_str "=== Simple Calculator Program ===\nEnter the first number: Enter the second number: \n=== Results ===\nAddition: 7 + 0 = 7\nSubtraction: 7 - 0 = 7\nMultiplication: 7 × 0 = 0\nDivision: Cannot divide by zero!\n") /\
  (exists l w, Test2.run [7; 0] = Done 0 l w /\
     stdout (trace w) =
       c_str "Enter first number: Enter second number: \nResults:\n7 + 0 = 7\n7 - 0 = 7\n7 * 0 = 0\nDivision by zero is undefined\n").
Proof.
  split; do 2 eexists; (split; [vm_compute; reflexivity|]);
    vm_compute; reflexivity.
Qed.

End Scenarios.

(* ================================================================= *)
(** ** The quotient variable is assigned before it is read *)

Section QuotientInitialised.
Import Stdio Machine.

(** C9.  From locals that are all unassigned, no run on two [int]s
    faults, so no variable is read before it is assigned.  The division
    and the read of the quotient for printing stand under the same test
    [num2 != 0]: with a zero divisor the quotient is still unassigned at
    exit, nothing was divided and no [float] was printed; otherwise the
    quotient was assigned the result of the one division performed, and
    that value is the one [float] printed. *)
Theorem quotient_read_only_when_assigned (a b : Z) (rest : list Z) :
  (exists l w, Test.run (a :: b :: rest) = Done 0 l w /\
     Test.quotient l =
       (if CInt.ne b 0
        then Some (Binary32.div (Binary32.of_int a) (Binary32.of_int b))
        else None) /\
     divisions (trace w) =
       (if CInt.ne b 0 then [(Binary32.of_int a, Binary32.of_int b)] else []) /\
     floats_printed (trace w) =
       (if CInt.ne b 0
        then [Binary32.div (Binary32.of_int a) (Binary32.of_int b)]
        else [])) /\
  (exists l w, Test2.run (a :: b :: rest) = Done 0 l w /\
     Test2.division l =
       (if CInt.ne b 0
        then Some (Binary32.div (Binary32.of_int a) (Binary32.of_int b))
        else None) /\
     divisions (trace w) =
       (if CInt.ne b 0 then [(Binary32.of_int a, Binary32.of_int b)] else []) /\
     floats_printed (trace w) =
       (if CInt.ne b 0
        then [Binary32.div (Binary32.of_int a) (Binary32.of_int b)]
        else [])).
Proof.
  unfold Test.run, Test2.run.
  destruct (Z.eq_dec b 0) as [Hb | Hb].
  - subst b. rewrite test_main_zero, test2_main_zero, ne_zero_false.
    split; do 2 eexists; repeat split; reflexivity.
  - rewrite (test_main_nonzero _ _ _ _ Hb), (test2_main_nonzero _ _ _ _ Hb).
    rewrite (ne_zero_true b Hb).
    split; do 2 eexists; repeat split; reflexivity.
Qed.

End QuotientInitialised.

(* ================================================================= *)
(** ** Output depends on the two operands only *)

Section Determinism.
Import Stdio Machine.

(** C10.  A run is a function of the locals at entry and of the input.
    Whatever the locals hold at entry (they are not initialised by the
    programs) and whatever follows the two [int]s on input, the run on
    [a] and [b] returns the same status after the same [printf] and
    [scanf] calls, hence writes the same bytes. *)
Theorem output_depends_on_operands_only
    (a b : Z) (rest rest' : list Z)
    (l1 l1' : Test.locals) (l2 l2' : Test2.locals) :
  (exists st l w l' w',
     Test.main l1 (mkWorld (a :: b :: rest) []) = Done st l w /\
     Test.main l1' (mkWorld (a :: b :: rest') []) = Done st l' w' /\
     trace w = trace w' /\ stdout (trace w) = stdout (trace w')) /\
  (exists st l w l' w',
     Test2.main l2 (mkWorld (a :: b :: rest) []) = Done st l w /\
     Test2.main l2' (mkWorld (a :: b :: rest') []) = Done st l' w' /\
     trace w = trace w' /\ stdout (trace w) = stdout (trace w')).
Proof.
  destruct (Z.eq_dec b 0) as [Hb | Hb].
  - subst b. rewrite !test_main_zero, !test2_main_zero.
    split; do 5 eexists; repeat split; reflexivity.
  - rewrite !(test_main_nonzero _ _ _ _ Hb), !(test2_main_nonzero _ _ _ _ Hb).
    split; do 5 eexists; repeat split; reflexivity.
Qed.

End Determinism.

(* ================================================================= *)
(** ** The two programs against each other *)

Section Equivalence.
Import Stdio Machine.

(** C4.  On the same two [int]s the two programs end with the same exit
    status and the same remaining input, hold the same values in [num1],
    [num2], [sum], [difference], [product] and in the quotient variable
    ([quotient] there, [division] here), stored the same scanned values,
    gave the same arguments to their [printf] calls with arguments, and
    performed the same divisions; both divide and print a [float]
    exactly when [num2 != 0].  Only texts differ: the wording of the
    formats, and the title, a [printf] without arguments that [test.c]
    alone makes. *)
Theorem programs_agree_up_to_wording (a b : Z) (rest : list Z) :
  exists l1 w1 l2 w2,
    Test.run (a :: b :: rest) = Done 0 l1 w1 /\
    Test2.run (a :: b :: rest) = Done 0 l2 w2 /\
    stdin w1 = stdin w2 /\
    Test.num1 l1 = Test2.num1 l2 /\
    Test.num2 l1 = Test2.num2 l2 /\
    Test.sum l1 = Test2.sum l2 /\
    Test.difference l1 = Test2.difference l2 /\
    Test.product l1 = Test2.product l2 /\
    Test.quotient l1 = Test2.division l2 /\
    scanned (trace w1) = scanned (trace w2) /\
    printed (trace w1) = printed (trace w2) /\
    divisions (trace w1) = divisions (trace w2) /\
    prints_a_float (trace w1) = CInt.ne b 0 /\
    prints_a_float (trace w2) = CInt.ne b 0 /\
    negb (Nat.eqb (List.length (divisions (trace w1))) 0) = CInt.ne b 0 /\
    List.length (printfs (trace w1)) = S (List.length (printfs (trace w2))).
Proof.
  unfold Test.run, Test2.run.
  destruct (Z.eq_dec b 0) as [Hb | Hb].
  - subst b. rewrite test_main_zero, test2_main_zero, ne_zero_false.
    do 4 eexists. repeat split; reflexivity.
  - rewrite (test_main_nonzero _ _ _ _ Hb), (test2_main_nonzero _ _ _ _ Hb).
    rewrite (ne_zero_true b Hb).
    do 4 eexists. repeat split; reflexivity.
Qed.

End Equivalence.

(* ================================================================= *)
(** ** The operands after they are read *)

Section Operands.
Import Stdio Machine.

Ltac prefix_state guard :=
  do 2 eexists; split;
  [ lazy -[CInt.add CInt.sub CInt.mul CInt.ne Binary32.of_int Binary32.div
           dec fixed2];
    repeat (rewrite guard;
            lazy -[CInt.add CInt.sub CInt.mul CInt.ne Binary32.of_int
                   Binary32.div dec fixed2]);
    reflexivity
  | cbn [trace printed divisions
         Test.num1 Test.num2 Test.sum Test.difference Test.product
         Test2.num1 Test2.num2 Test2.sum Test2.difference Test2.product];
    repeat split; try (intros ? ?; congruence); repeat constructor ].

Lemma test_operands_kept (a b : Z) (rest : list Z) (k : nat) :
  exists l w,
    exec (firstn (5 + k) Test.body) Test.entry (mkWorld (a :: b :: rest) []) =
      Done tt l w /\
    Test.num1 l = Some a /\ Test.num2 l = Some b /\
    (forall s, Test.sum l = Some s -> s = CInt.add a b) /\
    (forall d, Test.difference l = Some d -> d = CInt.sub a b) /\
    (forall p, Test.product l = Some p -> p = CInt.mul a b) /\
    Forall (fun xy => xy = (Binary32.of_int a, Binary32.of_int b))
           (divisions (trace w)) /\
    Forall (fun args => firstn 2 args = [VInt a; VInt b]) (printed (trace w)).
Proof.
  destruct (Z.eq_dec b 0) as [Hb | Hb].
  - subst b.
    do 9 (destruct k as [| k]; [prefix_state ne_zero_false |]).
    rewrite firstn_all2 by (simpl; lia). prefix_state ne_zero_false.
  - do 9 (destruct k as [| k]; [prefix_state (ne_zero_true b Hb) |]).
    rewrite firstn_all2 by (simpl; lia). prefix_state (ne_zero_true b Hb).
Qed.

Lemma test2_operands_kept (a b : Z) (rest : list Z) (k : nat) :
  exists l w,
    exec (firstn (4 + k) Test2.body) Test2.entry
         (mkWorld (a :: b :: rest) []) = Done tt l w /\
    Test2.num1 l = Some a /\ Test2.num2 l = Some b /\
    (forall s, Test2.sum l = Some s -> s = CInt.add a b) /\
    (forall d, Test2.difference l = Some d -> d = CInt.sub a b) /\
    (forall p, Test2.product l = Some p -> p = CInt.mul a b) /\
    Forall (fun xy => xy = (Binary32.of_int a, Binary32.of_int b))
           (divisions (trace w)) /\
    Forall (fun args => firstn 2 args = [VInt a; VInt b]) (printed (trace w)).
Proof.
  destruct (Z.eq_dec b 0) as [Hb | Hb].
  - subst b.
    do 9 (destruct k as [| k]; [prefix_state ne_zero_false |]).
    rewrite firstn_all2 by (simpl; lia). prefix_state ne_zero_false.
  - do 9 (destruct k as [| k]; [prefix_state (ne_zero_true b Hb) |]).
    rewrite firstn_all2 by (simpl; lia). prefix_state (ne_zero_true b Hb).
Qed.

(** C8.  Once the second [scanf] has returned, [num1] and [num2] hold
    the two [int]s read and keep them: after each further statement of
    [main], up to the last, both still hold what was read; [sum],
    [difference] and [product], once assigned, hold what [int]
    arithmetic gives on the two values read; every division performed
    so far had their conversions as operands; and every [printf] call
    with arguments made so far was given the two values as its first
    two arguments.  (Statements are counted from the second [scanf], the
    fifth of [test.c] and the fourth of [test2.c]; a count beyond the
    last statement is the whole body.) *)
Theorem operands_unchanged_after_read (a b : Z) (rest : list Z) (k : nat) :
  (exists l w,
     exec (firstn (5 + k) Test.body) Test.entry
          (mkWorld (a :: b :: rest) []) = Done tt l w /\
     Test.num1 l = Some a /\ Test.num2 l = Some b /\
     (forall s, Test.sum l = Some s -> s = CInt.add a b) /\
     (forall d, Test.difference l = Some d -> d = CInt.sub a b) /\
     (forall p, Test.product l = Some p -> p = CInt.mul a b) /\
     Forall (fun xy => xy = (Binary32.of_int a, Binary32.of_int b))
            (divisions (trace w)) /\
     Forall (fun args => firstn 2 args = [VInt a; VInt b])
            (printed (trace w))) /\
  (exists l w,
     exec (firstn (4 + k) Test2.body) Test2.entry
          (mkWorld (a :: b :: rest) []) = Done tt l w /\
     Test2.num1 l = Some a /\ Test2.num2 l = Some b /\
     (forall s, Test2.sum l = Some s -> s = CInt.add a b) /\
     (forall d, Test2.difference l = Some d -> d = CInt.sub a b) /\
     (forall p, Test2.product l = Some p -> p = CInt.mul a b) /\
     Forall (fun xy => xy = (Binary32.of_int a, Binary32.of_int b))
            (divisions (trace w)) /\
     Forall (fun args => firstn 2 args = [VInt a; VInt b])
            (printed (trace w))).
Proof.
  split; [apply test_operands_kept | apply test2_operands_kept].
Qed.

End Operands.

(* ================================================================= *)
(** ** The quotient *)

Section Quotient.
Import Stdio Machine.

Lemma in_range_bounds (z : Z) :
  CInt.in_range z = true -> - 2 ^ 31 <= z <= 2 ^ 31 - 1.
Proof.
  unfold CInt.in_range, CInt.INT_MIN, CInt.INT_MAX. intros H.
  apply andb_true_iff in H. destruct H as [Hlo Hhi].
  apply Z.leb_le in Hlo, Hhi. lia.
Qed.

(** C3.  For [int]s [a] and [b] with [b] not zero, each program performs
    one single-precision division, of [(float) a] by [(float) b], and
    assigns its result to the quotient variable.  That result is a
    finite number, and it differs from the rational [a / b] by at most
    [2 ^ -22] times the magnitude of [a / b]: the tolerance is relative
    (two conversions and one division, each within the unit roundoff
    [2 ^ -24]). *)
Theorem quotient_within_relative_epsilon (a b : Z) (rest : list Z) :
  CInt.in_range a = true ->
  CInt.in_range b = true ->
  b <> 0 ->
  (exists l w, Test.run (a :: b :: rest) = Done 0 l w /\
     Test.quotient l =
       Some (Binary32.div (Binary32.of_int a) (Binary32.of_int b)) /\
     divisions (trace w) = [(Binary32.of_int a, Binary32.of_int b)]) /\
  (exists l w, Test2.run (a :: b :: rest) = Done 0 l w /\
     Test2.division l =
       Some (Binary32.div (Binary32.of_int a) (Binary32.of_int b)) /\
     divisions (trace w) = [(Binary32.of_int a, Binary32.of_int b)]) /\
  Binary32.is_finite (Binary32.div (Binary32.of_int a) (Binary32.of_int b))
    = true /\
  (Qabs (Binary32.to_Q (Binary32.div (Binary32.of_int a) (Binary32.of_int b))
         - inject_Z a / inject_Z b)
   <= (1 # 4194304) * Qabs (inject_Z a / inject_Z b))%Q.
Proof.
  intros Ha Hb Hb0.
  split; [| split].
  - unfold Test.run. rewrite (test_main_nonzero _ _ _ _ Hb0).
    do 2 eexists. repeat split; reflexivity.
  - unfold Test2.run. rewrite (test2_main_nonzero _ _ _ _ Hb0).
    do 2 eexists. repeat split; reflexivity.
  - apply quotient_error; [apply in_range_bounds .. |]; assumption.
Qed.

Lemma quotient_within_relative_epsilon_witness :
  (exists l w, Test.run [2147483647; 3] = Done 0 l w /\
     Test.quotient l =
       Some (Binary32.div (Binary32.of_int 2147483647) (Binary32.of_int 3)) /\
     divisions (trace w) =
       [(Binary32.of_int 2147483647, Binary32.of_int 3)]) /\
  (exists l w, Test2.run [2147483647; 3] = Done 0 l w /\
     Test2.division l =
       Some (Binary32.div (Binary32.of_int 2147483647) (Binary32.of_int 3)) /\
     divisions (trace w) =
       [(Binary32.of_int 2147483647, Binary32.of_int 3)]) /\
  Binary32.is_finite
    (Binary32.div (Binary32.of_int 2147483647) (Binary32.of_int 3)) = true /\
  (Qabs (Binary32.to_Q
           (Binary32.div (Binary32.of_int 2147483647) (Binary32.of_int 3))
         - inject_Z 2147483647 / inject_Z 3)
   <= (1 # 4194304) * Qabs (inject_Z 2147483647 / inject_Z 3))%Q.
Proof.
  apply (quotient_within_relative_epsilon 2147483647 3 []);
    [reflexivity | reflexivity | discriminate].
Defined.

(** The tolerance cannot be an absolute one below 1: [2 ^ 24 + 1] is not
    a binary32, and dividing it by 1 gives [2 ^ 24]. *)
Example quotient_off_by_one :
  Binary32.to_Q (Binary32.div (Binary32.of_int 16777217) (Binary32.of_int 1))
  = inject_Z 16777216.
Proof. reflexivity. Qed.

End Quotient.

(* ================================================================= *)
(** ** Further runs *)

Section FurtherRuns.
Import Stdio Machine.

(** The third scenario of the specification. *)
Example scenario_minus4_2 :
  exists l w, Test2.run [-4; 2] = Done 0 l w /\
    stdout (trace w) =
      c_str "Enter first number: Enter second number: \nResults:\n-4 + 2 = -2\n-4 - 2 = -6\n-4 * 2 = -8\n-4 / 2 = -2.00\n".
Proof. do 2 eexists. split; vm_compute; reflexivity. Qed.

(** A zero dividend over a negative divisor is the negative zero, and
    [%.2f] prints its sign. *)
Example negative_zero_quotient :
  exists l w, Test2.run [0; -2] = Done 0 l w /\
    Test2.division l = Some (S754_zero true) /\
    last (printfs (trace w)) ("", []) =
      ("%d / %d = %.2f\n", [VInt 0; VInt (-2); VFloat (S754_zero true)]) /\
    format (c_str "%d / %d = %.2f\n")
           [VInt 0; VInt (-2); VFloat (S754_zero true)] =
      Some (c_str "0 / -2 = -0.00\n").
Proof. do 2 eexists. repeat split; vm_compute; reflexivity. Qed.

(** When the input runs out before the second number, [num2] is never
    assigned and the first statement that reads it faults. *)
Example missing_operand_faults :
  exists l w, Test.run [7] = Fault (Uninitialized "num2") l w /\
    Test.num1 l = Some 7 /\ Test.num2 l = None.
Proof. do 2 eexists. repeat split; vm_compute; reflexivity. Qed.

End FurtherRuns.

(* ================================================================= *)
(** ** Integer results on every input *)

Section WrappedResults.
Import Stdio Machine.

Lemma wrap_range (z : Z) : CInt.in_range (CInt.wrap z) = true.
Proof.
  unfold CInt.in_range, CInt.INT_MIN, CInt.INT_MAX, CInt.wrap.
  pose proof (Z.mod_pos_bound (z + 2 ^ 31) (2 ^ 32) ltac:(lia)) as H.
  apply andb_true_iff. split; apply Z.leb_le; lia.
Qed.

Lemma wrap_congruent (z : Z) : CInt.wrap z mod 2 ^ 32 = z mod 2 ^ 32.
Proof.
  unfold CInt.wrap. rewrite Zminus_mod_idemp_l. f_equal. lia.
Qed.

(** X1.  On every pair of operands, overflow or not, [sum],
    [difference] and [product] end as values of type [int] that agree
    with [a + b], [a - b] and [a * b] modulo [2 ^ 32], and these are
    the numbers the three arithmetic lines are given. *)
Theorem results_congruent_modulo_2_32 (a b : Z) (rest : list Z) :
  (exists l w s d p, Test.run (a :: b :: rest) = Done 0 l w /\
     Test.sum l = Some s /\ Test.difference l = Some d /\
     Test.product l = Some p /\
     CInt.in_range s = true /\ CInt.in_range d = true /\
     CInt.in_range p = true /\
     s mod 2 ^ 32 = (a + b) mod 2 ^ 32 /\
     d mod 2 ^ 32 = (a - b) mod 2 ^ 32 /\
     p mod 2 ^ 32 = (a * b) mod 2 ^ 32 /\
     In (EvPrintf "Addition: %d + %d = %d\n" [VInt a; VInt b; VInt s])
        (trace w) /\
     In (EvPrintf "Subtraction: %d - %d = %d\n" [VInt a; VInt b; VInt d])
        (trace w) /\
     In (EvPrintf "Multiplication: %d × %d = %d\n" [VInt a; VInt b; VInt p])
        (trace w)) /\
  (exists l w s d p, Test2.run (a :: b :: rest) = Done 0 l w /\
     Test2.sum l = Some s /\ Test2.difference l = Some d /\
     Test2.product l = Some p /\
     CInt.in_range s = true /\ CInt.in_range d = true /\
     CInt.in_range p = true /\
     s mod 2 ^ 32 = (a + b) mod 2 ^ 32 /\
     d mod 2 ^ 32 = (a - b) mod 2 ^ 32 /\
     p mod 2 ^ 32 = (a * b) mod 2 ^ 32 /\
     In (EvPrintf "%d + %d = %d\n" [VInt a; VInt b; VInt s]) (trace w) /\
     In (EvPrintf "%d - %d = %d\n" [VInt a; VInt b; VInt d]) (trace w) /\
     In (EvPrintf "%d * %d = %d\n" [VInt a; VInt b; VInt p]) (trace w)).
Proof.
  unfold Test.run, Test2.run.
  destruct (Z.eq_dec b 0) as [Hb | Hb].
  - subst b. rewrite test_main_zero, test2_main_zero.
    split; do 2 eexists;
      exists (CInt.add a 0), (CInt.sub a 0), (CInt.mul a 0);
      (split; [reflexivity |]); cbn [trace Test.sum Test.difference
        Test.product Test2.sum Test2.difference Test2.product];
      repeat split;
      try apply wrap_range; try apply wrap_congruent; cbn [In]; tauto.
  - rewrite (test_main_nonzero _ _ _ _ Hb), (test2_main_nonzero _ _ _ _ Hb).
    split; do 2 eexists;
      exists (CInt.add a b), (CInt.sub a b), (CInt.mul a b);
      (split; [reflexivity |]); cbn [trace Test.sum Test.difference
        Test.product Test2.sum Test2.difference Test2.product];
      repeat split;
      try apply wrap_range; try apply wrap_congruent; cbn [In]; tauto.
Qed.

(** X2.  With [0] as divisor and a dividend that is a value of type
    [int], the report shows the dividend as sum and as difference and
    [0] as product: standard output is the text below, whatever the
    dividend. *)
Theorem zero_divisor_report (a : Z) (rest : list Z) :
  CInt.in_range a = true ->
  (exists l w, Test.run (a :: 0 :: rest) = Done 0 l w /\
     Test.sum l = Some a /\ Test.difference l = Some a /\
     Test.product l = Some 0 /\
     stdout (trace w) =
       c_str "=== Simple Calculator Program ===\n" ++
       "Enter the first number: " ++ "Enter the second number: " ++
       c_str "\n=== Results ===\n" ++
       "Addition: " ++ dec a ++ " + 0 = " ++ dec a ++ c_str "\n" ++
       "Subtraction: " ++ dec a ++ " - 0 = " ++ dec a ++ c_str "\n" ++
       "Multiplication: " ++ dec a ++ " × 0 = 0" ++ c_str "\n" ++
       c_str "Division: Cannot divide by zero!\n") /\
  (exists l w, Test2.run (a :: 0 :: rest) = Done 0 l w /\
     Test2.sum l = Some a /\ Test2.difference l = Some a /\
     Test2.product l = Some 0 /\
     stdout (trace w) =
       "Enter first number: " ++ "Enter second number: " ++
       c_str "\nResults:\n" ++
       dec a ++ " + 0 = " ++ dec a ++ c_str "\n" ++
       dec a ++ " - 0 = " ++ dec a ++ c_str "\n" ++
       dec a ++ " * 0 = 0" ++ c_str "\n" ++
       c_str "Division by zero is undefined\n").
Proof.
  intros Ha.
  assert (Es : CInt.add a 0 = a).
  { unfold CInt.add. rewrite Z.add_0_r. apply wrap_in_range, Ha. }
  assert (Ed : CInt.sub a 0 = a).
  { unfold CInt.sub. rewrite Z.sub_0_r. apply wrap_in_range, Ha. }
  assert (Ep : CInt.mul a 0 = 0).
  { unfold CInt.mul. rewrite Z.mul_0_r. reflexivity. }
  unfold Test.run, Test2.run. rewrite test_main_zero, test2_main_zero.
  rewrite Es, Ed, Ep.
  split; do 2 eexists; (split; [reflexivity |]);
    cbn [trace Test.sum Test.difference Test.product
         Test2.sum Test2.difference Test2.product];
    (repeat split; [reflexivity .. |]);
    simpl; repeat (rewrite append_assoc; simpl); reflexivity.
Qed.

Lemma zero_divisor_report_witness :
  (exists l w, Test.run [7; 0] = Done 0 l w /\
     Test.sum l = Some 7 /\ Test.difference l = Some 7 /\
     Test.product l = Some 0 /\
     stdout (trace w) =
       c_str "=== Simple Calculator Program ===\n" ++
       "Enter the first number: " ++ "Enter the second number: " ++
       c_str "\n=== Results ===\n" ++
       "Addition: " ++ dec 7 ++ " + 0 = " ++ dec 7 ++ c_str "\n" ++
       "Subtraction: " ++ dec 7 ++ " - 0 = " ++ dec 7 ++ c_str "\n" ++
       "Multiplication: " ++ dec 7 ++ " × 0 = 0" ++ c_str "\n" ++
       c_str "Division: Cannot divide by zero!\n") /\
  (exists l w, Test2.run [7; 0] = Done 0 l w /\
     Test2.sum l = Some 7 /\ Test2.difference l = Some 7 /\
     Test2.product l = Some 0 /\
     stdout (trace w) =
       "Enter first number: " ++ "Enter second number: " ++
       c_str "\nResults:\n" ++
       dec 7 ++ " + 0 = " ++ dec 7 ++ c_str "\n" ++
       dec 7 ++ " - 0 = " ++ dec 7 ++ c_str "\n" ++
       dec 7 ++ " * 0 = 0" ++ c_str "\n" ++
       c_str "Division by zero is undefined\n").
Proof. apply (zero_divisor_report 7 []). reflexivity. Defined.

End WrappedResults.

(* ================================================================= *)
(** ** Input that ends early *)

Section ShortInput.
Import Stdio Machine.



End ShortInput.

(* ================================================================= *)
(** ** The report with a divisor that is not zero *)

Section NonzeroReport.
Import Stdio Machine.

Lemma test_stdout_nonzero (a b : Z) (rest : list Z) :
  b <> 0 ->
  exists l w, Test.run (a :: b :: rest) = Done 0 l w /\
    stdout (trace w) =
      c_str "=== Simple Calculator Program ===\n" ++
      "Enter the first number: " ++ "Enter the second number: " ++
      c_str "\n=== Results ===\n" ++
      "Addition: " ++ dec a ++ " + " ++ dec b ++ " = " ++
        dec (CInt.add a b) ++ c_str "\n" ++
      "Subtraction: " ++ dec a ++ " - " ++ dec b ++ " = " ++
        dec (CInt.sub a b) ++ c_str "\n" ++
      "Multiplication: " ++ dec a ++ " × " ++ dec b ++ " = " ++
        dec (CInt.mul a b) ++ c_str "\n" ++
      "Division: " ++ dec a ++ " ÷ " ++ dec b ++ " = " ++
        fixed2 (Binary32.div (Binary32.of_int a) (Binary32.of_int b)) ++
        c_str "\n".
Proof.
  intros Hb. unfold Test.run. rewrite (test_main_nonzero _ _ _ _ Hb).
  do 2 eexists. split; [reflexivity |]. cbn [trace].
  simpl; repeat (rewrite append_assoc; simpl); reflexivity.
Qed.

Lemma test2_stdout_nonzero (a b : Z) (rest : list Z) :
  b <> 0 ->
  exists l w, Test2.run (a :: b :: rest) = Done 0 l w /\
    stdout (trace w) =
      "Enter first number: " ++ "Enter second number: " ++
      c_str "\nResults:\n" ++
      dec a ++ " + " ++ dec b ++ " = " ++ dec (CInt.add a b) ++ c_str "\n" ++
      dec a ++ " - " ++ dec b ++ " = " ++ dec (CInt.sub a b) ++ c_str "\n" ++
      dec a ++ " * " ++ dec b ++ " = " ++ dec (CInt.mul a b) ++ c_str "\n" ++
      dec a ++ " / " ++ dec b ++ " = " ++
        fixed2 (Binary32.div (Binary32.of_int a) (Binary32.of_int b)) ++
        c_str "\n".
Proof.
  intros Hb. unfold Test2.run. rewrite (test2_main_nonzero _ _ _ _ Hb).
  do 2 eexists. split; [reflexivity |]. cbn [trace].
  simpl; repeat (rewrite append_assoc; simpl); reflexivity.
Qed.

End NonzeroReport.

(* ================================================================= *)
(** ** Roundings that lose nothing *)

Section ExactRounding.
Import Binary32.

(** A mantissa whose digits beyond the 24th are all zero is kept as it
    is, up to the shift that removes them. *)
Lemma binary_round_aux_exact (s : bool) (mx ex : Z) :
  0 < mx -> 24 <= Zdigits2 mx ->
  mx mod 2 ^ (Zdigits2 mx - 24) = 0 ->
  -149 <= Zdigits2 mx + ex - 24 <= 104 ->
  binary_round_aux 24 128 s mx ex loc_Exact =
  S754_finite s (Z.to_pos (mx / 2 ^ (Zdigits2 mx - 24)))
              (ex + (Zdigits2 mx - 24)).
Proof.
  intros Hpos Hd Hmod He.
  pose proof (Zdigits2_bounds mx Hpos) as Hb.
  set (d := Zdigits2 mx) in *. set (k0 := d - 24) in *.
  assert (Hk0 : 0 <= k0) by (unfold k0; lia).
  assert (Hpow : 0 < 2 ^ k0) by (apply Z.pow_pos_nonneg; lia).
  unfold binary_round_aux, shr_fexp. fold d.
  rewrite fexp_normal by lia.
  replace (d + ex - 24 - ex) with k0 by (unfold k0; lia).
  destruct (located_shr mx 1 (shr_record_of_loc mx loc_Exact) ex k0
              ltac:(lia) ltac:(lia) Hk0 (located_exact mx)) as [Hloc He1].
  destruct (shr (shr_record_of_loc mx loc_Exact) ex k0) as [mrs1 e1].
  cbn [fst snd] in Hloc, He1. subst e1.
  rewrite Z.mul_1_r in Hloc. destruct mrs1 as [m1 r1 s1].
  destruct Hloc as (Hm1 & Hr1 & Hs1). cbn [shr_m shr_r shr_s] in *.
  rewrite Hmod in Hr1, Hs1.
  assert (Er : r1 = false) by (rewrite Hr1; apply Z.leb_gt; lia).
  assert (Es : s1 = false) by (rewrite Hs1; reflexivity).
  clear Hr1 Hs1. subst r1 s1. cbn [loc_of_shr_record round_nearest_even shr_m].
  assert (Hm1b : 2 ^ 23 <= m1 < 2 ^ 24).
  { rewrite Hm1.
    assert (E1 : 2 ^ (d - 1) = 2 ^ 23 * 2 ^ k0).
    { rewrite <- Z.pow_add_r by lia. f_equal. unfold k0. lia. }
    assert (E2 : 2 ^ d = 2 ^ 24 * 2 ^ k0).
    { rewrite <- Z.pow_add_r by lia. f_equal. unfold k0. lia. }
    split.
    - apply Z.div_le_lower_bound; lia.
    - apply Z.div_lt_upper_bound; lia. }
  rewrite (Zdigits2_unique m1 24) by (change (2 ^ (24 - 1)) with (2 ^ 23); lia).
  rewrite fexp_normal by lia.
  replace (24 + (ex + k0) - 24 - (ex + k0)) with 0 by lia.
  cbn [shr shr_record_of_loc shr_m].
  destruct m1 as [| p | p] eqn:Ep; [cbn in Hm1b; lia | | cbn in Hm1b; lia].
  replace (ex + k0 <=? 128 - 24) with true
    by (symmetry; apply Z.leb_le; unfold k0; lia).
  rewrite <- Hm1. reflexivity.
Qed.

(** [(float) n] is [n] itself when [n] has at most 24 binary digits. *)
Lemma binary_round_small_int (s : bool) (p : positive) :
  Z.pos p < 2 ^ 24 ->
  exists m e,
    binary_round 24 128 s p 0 = S754_finite s m e /\
    2 ^ 23 <= Z.pos m < 2 ^ 24 /\ -23 <= e <= 0 /\
    Z.pos m = Z.pos p * 2 ^ (- e).
Proof.
  intros Hp.
  pose proof (Zdigits2_bounds (Z.pos p) ltac:(lia)) as Hb.
  cbn [Zdigits2] in Hb. set (d := Z.pos (digits2_pos p)) in *.
  assert (Hd1 : 1 <= d) by (unfold d; lia).
  assert (Hd24 : d <= 24).
  { destruct (Z_le_gt_dec d 24) as [H | H]; [exact H |].
    assert (2 ^ 24 <= 2 ^ (d - 1)) by (apply Z.pow_le_mono_r; lia). lia. }
  unfold binary_round. fold d. rewrite fexp_normal by lia.
  unfold shl_align.
  destruct (d + 0 - 24 - 0) as [| q | j] eqn:Ed; [| lia |].
  - assert (Hdig : Zdigits2 (Z.pos p) = 24) by (cbn [Zdigits2]; fold d; lia).
    rewrite binary_round_aux_exact; rewrite ?Hdig; try lia.
    + replace (24 - 24) with 0 by lia. rewrite Z.pow_0_r, Z.div_1_r.
      exists p, 0. cbn [Z.to_pos]. split; [reflexivity |].
      pose proof (Zdigits2_bounds (Z.pos p) ltac:(lia)) as Hb'.
      rewrite Hdig in Hb'. change (2 ^ (24 - 1)) with (2 ^ 23) in Hb'.
      split; [lia |]. split; [lia |]. cbn. lia.
    + replace (24 - 24) with 0 by lia. rewrite Z.pow_0_r. apply Z.mod_1_r.
  - assert (Hj : Z.pos j = 24 - d) by lia.
    assert (Hmz : Z.pos (Pos.iter xO p j) = Z.pos p * 2 ^ (24 - d))
      by (rewrite iter_xO_pow2, Hj; reflexivity).
    assert (Hpow : 0 < 2 ^ (24 - d)) by (apply Z.pow_pos_nonneg; lia).
    assert (E1 : 2 ^ 23 = 2 ^ (d - 1) * 2 ^ (24 - d)).
    { rewrite <- Z.pow_add_r by lia. f_equal. lia. }
    assert (E2 : 2 ^ 24 = 2 ^ d * 2 ^ (24 - d)).
    { rewrite <- Z.pow_add_r by lia. f_equal. lia. }
    assert (Hmzb : 2 ^ 23 <= Z.pos (Pos.iter xO p j) < 2 ^ 24).
    { rewrite Hmz, E1, E2. nia. }
    assert (Hdig : Zdigits2 (Z.pos (Pos.iter xO p j)) = 24).
    { apply Zdigits2_unique; [lia |].
      change (2 ^ (24 - 1)) with (2 ^ 23). exact Hmzb. }
    rewrite binary_round_aux_exact; rewrite ?Hdig; try lia.
    + replace (24 - 24) with 0 by lia. rewrite Z.pow_0_r, Z.div_1_r.
      exists (Pos.iter xO p j), (d - 24). cbn [Z.to_pos].
      split; [f_equal; lia |]. split; [exact Hmzb |]. split; [lia |].
      rewrite Hmz. f_equal. f_equal. lia.
    + replace (24 - 24) with 0 by lia. rewrite Z.pow_0_r. apply Z.mod_1_r.
Qed.

Lemma new_location_zero (D : Z) : new_location D 0 = loc_Exact.
Proof.
  unfold new_location, new_location_even, new_location_odd.
  destruct (Z.even D); reflexivity.
Qed.

(** The quotient of two such numbers when one is a multiple of the
    other. *)
Lemma SFdiv_exact (sx sy : bool) (mx my : positive) (ex ey A B Q : Z) :
  2 ^ 23 <= Z.pos mx < 2 ^ 24 ->
  2 ^ 23 <= Z.pos my < 2 ^ 24 ->
  -23 <= ex <= 0 -> -23 <= ey <= 0 ->
  Z.pos mx = A * 2 ^ (- ex) ->
  Z.pos my = B * 2 ^ (- ey) ->
  0 < B -> 0 < Q -> A = Q * B ->
  exists m e,
    SFdiv 24 128 (S754_finite sx mx ex) (S754_finite sy my ey) =
      S754_finite (xorb sx sy) m e /\
    e <= 0 /\ Z.pos m = Q * 2 ^ (- e).
Proof.
  intros Hmx Hmy Hex Hey HA HB HBpos HQpos HAB.
  cbn [SFdiv]. unfold SFdiv_core_binary.
  rewrite (Zdigits2_unique (Z.pos mx) 24), (Zdigits2_unique (Z.pos my) 24)
    by (change (2 ^ (24 - 1)) with (2 ^ 23); lia).
  replace (24 + ex - (24 + ey)) with (ex - ey) by lia.
  rewrite fexp_normal by lia.
  replace (Z.min (ex - ey - 24) (ex - ey)) with (ex - ey - 24) by lia.
  replace (ex - ey - (ex - ey - 24)) with 24 by lia.
  rewrite Z.shiftl_mul_pow2 by lia.
  set (N := Z.pos mx * 2 ^ 24). set (D := Z.pos my).
  set (t := 24 - ex + ey).
  assert (Ht : 1 <= t) by (unfold t; lia).
  assert (HD : 0 < D) by (unfold D; lia).
  assert (HN : N = Q * 2 ^ t * D).
  { unfold N, D, t. rewrite HA, HB, HAB.
    replace (24 - ex + ey) with (24 + (- ex) - (- ey)) by lia.
    assert (E : 2 ^ (- ex) * 2 ^ 24 = 2 ^ (24 + - ex - - ey) * 2 ^ (- ey)).
    { rewrite <- !Z.pow_add_r by lia. f_equal. lia. }
    rewrite <- !Z.mul_assoc, E. ring. }
  assert (Hq : Z.div_eucl N D = (Q * 2 ^ t, 0)).
  { assert (Hdiv : N / D = Q * 2 ^ t) by (rewrite HN; apply Z.div_mul; lia).
    assert (Hmod : N mod D = 0) by (rewrite HN; apply Z.mod_mul; lia).
    unfold Z.div, Z.modulo in Hdiv, Hmod.
    destruct (Z.div_eucl N D). subst. reflexivity. }
  rewrite Hq, new_location_zero.
  set (q := Q * 2 ^ t) in *.
  assert (Hqb : 2 ^ 23 <= q < 2 ^ 25).
  { assert (Hdiv : q = N / D) by (rewrite HN; symmetry; apply Z.div_mul; lia).
    rewrite Hdiv. change (2 ^ 23) with 8388608 in *.
    change (2 ^ 24) with 16777216 in *. change (2 ^ 25) with 33554432.
    unfold N, D. split.
    - apply Z.div_le_lower_bound; lia.
    - apply Z.div_lt_upper_bound; lia. }
  assert (Hqpos : 0 < q) by (change (2 ^ 23) with 8388608 in Hqb; lia).
  assert (Hpt : 0 < 2 ^ (t - 1)) by (apply Z.pow_pos_nonneg; lia).
  assert (Heven : q = 2 * (Q * 2 ^ (t - 1))).
  { unfold q. replace t with (Z.succ (t - 1)) at 1 by lia.
    rewrite Z.pow_succ_r by lia. ring. }
  destruct (Z_lt_le_dec q (2 ^ 24)) as [Hlt | Hge].
  - assert (Hdig : Zdigits2 q = 24).
    { apply Zdigits2_unique; [lia |].
      change (2 ^ (24 - 1)) with (2 ^ 23). lia. }
    rewrite binary_round_aux_exact; rewrite ?Hdig; try lia.
    + replace (24 - 24) with 0 by lia. rewrite Z.pow_0_r, Z.div_1_r.
      exists (Z.to_pos q), (ex - ey - 24 + 0). split; [reflexivity |].
      split; [lia |]. rewrite Z2Pos.id by lia. unfold q.
      f_equal. f_equal. unfold t. lia.
    + replace (24 - 24) with 0 by lia. rewrite Z.pow_0_r. apply Z.mod_1_r.
  - assert (Hdig : Zdigits2 q = 25).
    { apply Zdigits2_unique; [lia |].
      change (2 ^ (25 - 1)) with (2 ^ 24). lia. }
    rewrite binary_round_aux_exact; rewrite ?Hdig; try lia.
    + replace (25 - 24) with 1 by lia. change (2 ^ 1) with 2.
      assert (Hhalf : q / 2 = Q * 2 ^ (t - 1)).
      { rewrite Heven, Z.mul_comm. apply Z.div_mul. lia. }
      exists (Z.to_pos (q / 2)), (ex - ey - 24 + 1). split; [reflexivity |].
      split; [lia |]. rewrite Z2Pos.id by (rewrite Hhalf; nia).
      rewrite Hhalf. f_equal. f_equal. unfold t. lia.
    + replace (25 - 24) with 1 by lia. change (2 ^ 1) with 2.
      rewrite Heven, Z.mul_comm. apply Z.mod_mul. lia.
Qed.

End ExactRounding.

(* ================================================================= *)
(** ** Quotients of small operands *)

Section ExactQuotients.
Import Binary32 Stdio Machine.
#[local] Open Scope Q_scope.

Lemma mag_exact (m : positive) (e n : Z) :
  (e <= 0)%Z -> Z.pos m = (n * 2 ^ (- e))%Z -> mag m e == inject_Z n.
Proof.
  intros He Hm. unfold mag. rewrite Hm, inject_Z_mult, pow2_inject by lia.
  rewrite Qpower_opp. pose proof (pow2_pos e) as Hpos. field. lra.
Qed.

(** The quotient of the conversions of two positive integers below
    [2 ^ 24]: one rounding only. *)
Lemma division_of_small_conversions (sa sb : bool) (pa pb : positive) :
  (Z.pos pa < 2 ^ 24)%Z -> (Z.pos pb < 2 ^ 24)%Z ->
  exists m e,
    SFdiv 24 128 (binary_round 24 128 sa pa 0) (binary_round 24 128 sb pb 0)
      = S754_finite (xorb sa sb) m e /\
    Qabs (mag m e - inject_Z (Z.pos pa) / inject_Z (Z.pos pb))
      <= u * (inject_Z (Z.pos pa) / inject_Z (Z.pos pb)).
Proof.
  intros Hpa Hpb.
  destruct (binary_round_small_int sa pa Hpa) as (ma & ea & Ra & Hma & Hea & Ea).
  destruct (binary_round_small_int sb pb Hpb) as (mb & eb & Rb & Hmb & Heb & Eb).
  destruct (division_Q sa sb ma mb ea eb Hma Hmb ltac:(lia) ltac:(lia))
    as (m & e & Rq & Qq).
  exists m, e. rewrite Ra, Rb. split; [exact Rq |].
  rewrite (mag_exact ma ea (Z.pos pa)), (mag_exact mb eb (Z.pos pb)) in Qq
    by (lia || assumption).
  set (A := inject_Z (Z.pos pa)) in *. set (B := inject_Z (Z.pos pb)) in *.
  assert (HB : 0 < B) by reflexivity.
  set (R := A / B).
  assert (ER : A == R * B) by (unfold R; field; lra).
  rewrite ER in Qq. destruct Qq as [Hlo Hhi].
  apply Qabs_Qle_condition. split.
  - apply (Qmult_lt_0_le_reg_r _ _ B HB). lra.
  - apply (Qmult_lt_0_le_reg_r _ _ B HB). lra.
Qed.

Lemma small_quotient_error (a b : Z) :
  (Z.abs a < 2 ^ 24)%Z -> (Z.abs b < 2 ^ 24)%Z -> b <> 0%Z ->
  is_finite (div (of_int a) (of_int b)) = true /\
  Qabs (to_Q (div (of_int a) (of_int b)) - inject_Z a / inject_Z b)
    <= u * Qabs (inject_Z a / inject_Z b).
Proof.
  intros Ha Hb Hb0.
  assert (Hpb : (Z.pos (Z.to_pos (Z.abs b)) = Z.abs b)%Z)
    by (apply Z2Pos.id; lia).
  rewrite (of_int_nonzero b Hb0). unfold div, prec, emax.
  destruct (Z.eq_dec a 0) as [Ha0 | Ha0].
  - subst a. cbn [of_int binary_normalize].
    destruct (binary_round_small_int (b <? 0)%Z (Z.to_pos (Z.abs b)))
      as (mb & eb & Rb & _).
    { rewrite Hpb. exact Hb. }
    rewrite Rb. cbn [SFdiv is_finite to_Q]. split; [reflexivity |].
    unfold Qdiv. rewrite Qmult_0_l. cbn. discriminate.
  - assert (Hpa : (Z.pos (Z.to_pos (Z.abs a)) = Z.abs a)%Z)
      by (apply Z2Pos.id; lia).
    rewrite (of_int_nonzero a Ha0).
    destruct (division_of_small_conversions (a <? 0)%Z (b <? 0)%Z
                (Z.to_pos (Z.abs a)) (Z.to_pos (Z.abs b)))
      as (m & e & R & Hq).
    { rewrite Hpa. exact Ha. }
    { rewrite Hpb. exact Hb. }
    rewrite R. cbn [is_finite to_Q]. split; [reflexivity |].
    rewrite Hpa, Hpb in Hq.
    assert (HB : 0 < inject_Z (Z.abs b)).
    { change 0 with (inject_Z 0). rewrite <- Zlt_Qlt. lia. }
    assert (HA : 0 <= inject_Z (Z.abs a)).
    { change 0 with (inject_Z 0). rewrite <- Zle_Qle. lia. }
    rewrite (inject_Z_signed a), (inject_Z_signed b).
    rewrite signed_difference by lra.
    rewrite signed_ratio by assumption.
    exact Hq.
Qed.

#[local] Open Scope Z_scope.

Lemma exact_quotient_sign (a b : Z) :
  a <> 0 -> b <> 0 -> a mod b = 0 ->
  Z.abs a = Z.abs (a / b) * Z.abs b /\ 0 < Z.abs (a / b) /\
  (a / b <? 0) = xorb (a <? 0) (b <? 0).
Proof.
  intros Ha Hb Hmod.
  pose proof (Z.div_mod a b Hb) as E. rewrite Hmod, Z.add_0_r in E.
  assert (Hq : a / b <> 0) by (intros H0; rewrite H0 in E; lia).
  split; [| split].
  - rewrite <- Z.abs_mul. f_equal. lia.
  - lia.
  - destruct (Z.ltb_spec (a / b) 0), (Z.ltb_spec a 0), (Z.ltb_spec b 0);
      cbn [xorb]; try reflexivity; nia.
Qed.

(** [%.2f] of a float that is a whole number. *)
Lemma fixed2_whole (s : bool) (m : positive) (e n : Z) :
  e <= 0 -> Z.pos m = n * 2 ^ (- e) ->
  fixed2 (S754_finite s m e) = (sign_str s ++ dec n ++ ".00")%string.
Proof.
  intros He Hm.
  assert (Hh : hundredths m e = n * 100).
  { unfold hundredths. destruct e as [| p | p]; [| lia |].
    - rewrite Hm. cbn [Z.opp]. rewrite Z.pow_0_r. ring.
    - cbn [Z.opp] in Hm. rewrite Hm.
      assert (Hpow : 0 < 2 ^ Z.pos p) by (apply Z.pow_pos_nonneg; lia).
      unfold round_half_even.
      replace (n * 2 ^ Z.pos p * 100) with (n * 100 * 2 ^ Z.pos p) by ring.
      rewrite Z.div_mul, Z.mod_mul by lia.
      assert (Hc : (2 * 0 ?= 2 ^ Z.pos p) = Lt)
        by (apply Z.compare_lt_iff; lia).
      rewrite Hc. reflexivity. }
  unfold fixed2. cbv zeta. rewrite Hh, Z.div_mul, Z.mod_mul by lia.
  reflexivity.
Qed.

Lemma exact_quotient (a b : Z) :
  Z.abs a < 2 ^ 24 -> Z.abs b < 2 ^ 24 -> b <> 0 -> a mod b = 0 ->
  (to_Q (div (of_int a) (of_int b)) == inject_Z (a / b))%Q /\
  fixed2 (div (of_int a) (of_int b)) =
    (sign_str (xorb (a <? 0)%Z (b <? 0)%Z) ++ dec (Z.abs (a / b)) ++ ".00")%string.
Proof.
  intros Ha Hb Hb0 Hmod.
  assert (Hpb : Z.pos (Z.to_pos (Z.abs b)) = Z.abs b)
    by (apply Z2Pos.id; lia).
  rewrite (of_int_nonzero b Hb0). unfold div, prec, emax.
  destruct (binary_round_small_int (b <? 0) (Z.to_pos (Z.abs b)))
    as (mb & eb & Rb & Hmb & Heb & Eb).
  { rewrite Hpb. exact Hb. }
  rewrite Hpb in Eb. rewrite Rb.
  destruct (Z.eq_dec a 0) as [Ha0 | Ha0].
  - subst a. cbn [of_int binary_normalize SFdiv to_Q].
    rewrite Z.div_0_l by exact Hb0. split; reflexivity.
  - assert (Hpa : Z.pos (Z.to_pos (Z.abs a)) = Z.abs a)
      by (apply Z2Pos.id; lia).
    rewrite (of_int_nonzero a Ha0).
    destruct (binary_round_small_int (a <? 0) (Z.to_pos (Z.abs a)))
      as (ma & ea & Ra & Hma & Hea & Ea).
    { rewrite Hpa. exact Ha. }
    rewrite Hpa in Ea. rewrite Ra.
    destruct (exact_quotient_sign a b Ha0 Hb0 Hmod) as (Habs & Hqpos & Hsign).
    destruct (SFdiv_exact (a <? 0) (b <? 0) ma mb ea eb
                (Z.abs a) (Z.abs b) (Z.abs (a / b)))
      as (m & e & R & He & Em); try assumption; try lia.
    rewrite R. split.
    + cbn [to_Q]. rewrite (inject_Z_signed (a / b)), Hsign.
      pose proof (mag_exact m e (Z.abs (a / b)) He Em) as Hmag.
      destruct (xorb (a <? 0) (b <? 0)); cbn [cond_Qopp];
        rewrite Hmag; reflexivity.
    + apply fixed2_whole; assumption.
Qed.

(** A zero dividend: the quotient is a zero with the sign of the
    divisor. *)
Lemma zero_dividend_quotient (b : Z) :
  - 2 ^ 31 <= b <= 2 ^ 31 - 1 -> b <> 0 ->
  div (of_int 0) (of_int b) = S754_zero (b <? 0).
Proof.
  intros Hb Hb0. change (2 ^ 31) with 2147483648 in Hb.
  rewrite (of_int_nonzero b Hb0). unfold div, prec, emax.
  destruct (int_conversion_Q (b <? 0) (Z.to_pos (Z.abs b)))
    as (mb & eb & Rb & _).
  { rewrite Z2Pos.id by lia. change (2 ^ 32) with 4294967296. lia. }
  rewrite Rb. reflexivity.
Qed.

End ExactQuotients.

(* ================================================================= *)
(** ** What the division line shows *)

Section DivisionLine.
Import Stdio Machine.

(** X4.  With a divisor that is not zero, standard output is the
    prompts, the header, the three integer lines and a division line
    that echoes both operands and ends with the quotient in [%.2f]
    form, in this order and with nothing else. *)
Theorem nonzero_divisor_report (a b : Z) (rest : list Z) :
  b <> 0 ->
  (exists l w, Test.run (a :: b :: rest) = Done 0 l w /\
     stdout (trace w) =
       c_str "=== Simple Calculator Program ===\n" ++
       "Enter the first number: " ++ "Enter the second number: " ++
       c_str "\n=== Results ===\n" ++
       "Addition: " ++ dec a ++ " + " ++ dec b ++ " = " ++
         dec (CInt.add a b) ++ c_str "\n" ++
       "Subtraction: " ++ dec a ++ " - " ++ dec b ++ " = " ++
         dec (CInt.sub a b) ++ c_str "\n" ++
       "Multiplication: " ++ dec a ++ " × " ++ dec b ++ " = " ++
         dec (CInt.mul a b) ++ c_str "\n" ++
       "Division: " ++ dec a ++ " ÷ " ++ dec b ++ " = " ++
         fixed2 (Binary32.div (Binary32.of_int a) (Binary32.of_int b)) ++
         c_str "\n") /\
  (exists l w, Test2.run (a :: b :: rest) = Done 0 l w /\
     stdout (trace w) =
       "Enter first number: " ++ "Enter second number: " ++
       c_str "\nResults:\n" ++
       dec a ++ " + " ++ dec b ++ " = " ++ dec (CInt.add a b) ++ c_str "\n" ++
       dec a ++ " - " ++ dec b ++ " = " ++ dec (CInt.sub a b) ++ c_str "\n" ++
       dec a ++ " * " ++ dec b ++ " = " ++ dec (CInt.mul a b) ++ c_str "\n" ++
       dec a ++ " / " ++ dec b ++ " = " ++
         fixed2 (Binary32.div (Binary32.of_int a) (Binary32.of_int b)) ++
         c_str "\n").
Proof.
  intros Hb. split;
    [apply test_stdout_nonzero | apply test2_stdout_nonzero]; exact Hb.
Qed.

Lemma nonzero_divisor_report_witness :
  (exists l w, Test.run [-4; 2] = Done 0 l w /\
     stdout (trace w) =
       c_str "=== Simple Calculator Program ===\n" ++
       "Enter the first number: " ++ "Enter the second number: " ++
       c_str "\n=== Results ===\n" ++
       "Addition: " ++ dec (-4) ++ " + " ++ dec 2 ++ " = " ++
         dec (CInt.add (-4) 2) ++ c_str "\n" ++
       "Subtraction: " ++ dec (-4) ++ " - " ++ dec 2 ++ " = " ++
         dec (CInt.sub (-4) 2) ++ c_str "\n" ++
       "Multiplication: " ++ dec (-4) ++ " × " ++ dec 2 ++ " = " ++
         dec (CInt.mul (-4) 2) ++ c_str "\n" ++
       "Division: " ++ dec (-4) ++ " ÷ " ++ dec 2 ++ " = " ++
         fixed2 (Binary32.div (Binary32.of_int (-4)) (Binary32.of_int 2)) ++
         c_str "\n") /\
  (exists l w, Test2.run [-4; 2] = Done 0 l w /\
     stdout (trace w) =
       "Enter first number: " ++ "Enter second number: " ++
       c_str "\nResults:\n" ++
       dec (-4) ++ " + " ++ dec 2 ++ " = " ++ dec (CInt.add (-4) 2) ++
         c_str "\n" ++
       dec (-4) ++ " - " ++ dec 2 ++ " = " ++ dec (CInt.sub (-4) 2) ++
         c_str "\n" ++
       dec (-4) ++ " * " ++ dec 2 ++ " = " ++ dec (CInt.mul (-4) 2) ++
         c_str "\n" ++
       dec (-4) ++ " / " ++ dec 2 ++ " = " ++
         fixed2 (Binary32.div (Binary32.of_int (-4)) (Binary32.of_int 2)) ++
         c_str "\n").
Proof. apply (nonzero_divisor_report (-4) 2 []). discriminate. Defined.

(** X5.  When both operands are below [2 ^ 24] in magnitude their
    conversions to [float] lose nothing, so the quotient each program
    assigns is [a / b] rounded once: it is within [2 ^ -24] of [a / b],
    relatively. *)
Theorem small_operands_quotient_rounded_once (a b : Z) (rest : list Z) :
  Z.abs a < 2 ^ 24 -> Z.abs b < 2 ^ 24 -> b <> 0 ->
  (exists l w, Test.run (a :: b :: rest) = Done 0 l w /\
     Test.quotient l =
       Some (Binary32.div (Binary32.of_int a) (Binary32.of_int b))) /\
  (exists l w, Test2.run (a :: b :: rest) = Done 0 l w /\
     Test2.division l =
       Some (Binary32.div (Binary32.of_int a) (Binary32.of_int b))) /\
  Binary32.is_finite (Binary32.div (Binary32.of_int a) (Binary32.of_int b))
    = true /\
  (Qabs (Binary32.to_Q (Binary32.div (Binary32.of_int a) (Binary32.of_int b))
         - inject_Z a / inject_Z b)
   <= (1 # 16777216) * Qabs (inject_Z a / inject_Z b))%Q.
Proof.
  intros Ha Hb Hb0. split; [| split].
  - unfold Test.run. rewrite (test_main_nonzero _ _ _ _ Hb0).
    do 2 eexists. split; reflexivity.
  - unfold Test2.run. rewrite (test2_main_nonzero _ _ _ _ Hb0).
    do 2 eexists. split; reflexivity.
  - apply small_quotient_error; assumption.
Qed.

Lemma small_operands_quotient_rounded_once_witness :
  (exists l w, Test.run [1; 3] = Done 0 l w /\
     Test.quotient l =
       Some (Binary32.div (Binary32.of_int 1) (Binary32.of_int 3))) /\
  (exists l w, Test2.run [1; 3] = Done 0 l w /\
     Test2.division l =
       Some (Binary32.div (Binary32.of_int 1) (Binary32.of_int 3))) /\
  Binary32.is_finite (Binary32.div (Binary32.of_int 1) (Binary32.of_int 3))
    = true /\
  (Qabs (Binary32.to_Q (Binary32.div (Binary32.of_int 1) (Binary32.of_int 3))
         - inject_Z 1 / inject_Z 3)
   <= (1 # 16777216) * Qabs (inject_Z 1 / inject_Z 3))%Q.
Proof.
  apply (small_operands_quotient_rounded_once 1 3 []);
    [reflexivity | reflexivity | discriminate].
Defined.

(** X6.  When both operands are below [2 ^ 24] in magnitude and the
    divisor divides the dividend, the quotient assigned is the integer
    [a / b] exactly, and the division line shows it as that integer
    followed by [.00], with a minus sign when the operands' signs
    differ (for a zero dividend: when the divisor is negative). *)
Theorem divisible_operands_exact_quotient (a b : Z) (rest : list Z) :
  Z.abs a < 2 ^ 24 -> Z.abs b < 2 ^ 24 -> b <> 0 -> a mod b = 0 ->
  (Binary32.to_Q (Binary32.div (Binary32.of_int a) (Binary32.of_int b))
   == inject_Z (a / b))%Q /\
  (exists l w, Test.run (a :: b :: rest) = Done 0 l w /\
     Test.quotient l =
       Some (Binary32.div (Binary32.of_int a) (Binary32.of_int b)) /\
     stdout (trace w) =
       c_str "=== Simple Calculator Program ===\n" ++
       "Enter the first number: " ++ "Enter the second number: " ++
       c_str "\n=== Results ===\n" ++
       "Addition: " ++ dec a ++ " + " ++ dec b ++ " = " ++
         dec (CInt.add a b) ++ c_str "\n" ++
       "Subtraction: " ++ dec a ++ " - " ++ dec b ++ " = " ++
         dec (CInt.sub a b) ++ c_str "\n" ++
       "Multiplication: " ++ dec a ++ " × " ++ dec b ++ " = " ++
         dec (CInt.mul a b) ++ c_str "\n" ++
       "Division: " ++ dec a ++ " ÷ " ++ dec b ++ " = " ++
         (sign_str (xorb (a <? 0) (b <? 0)) ++
          dec (Z.abs (a / b)) ++ ".00") ++
         c_str "\n") /\
  (exists l w, Test2.run (a :: b :: rest) = Done 0 l w /\
     Test2.division l =
       Some (Binary32.div (Binary32.of_int a) (Binary32.of_int b)) /\
     stdout (trace w) =
       "Enter first number: " ++ "Enter second number: " ++
       c_str "\nResults:\n" ++
       dec a ++ " + " ++ dec b ++ " = " ++ dec (CInt.add a b) ++ c_str "\n" ++
       dec a ++ " - " ++ dec b ++ " = " ++ dec (CInt.sub a b) ++ c_str "\n" ++
       dec a ++ " * " ++ dec b ++ " = " ++ dec (CInt.mul a b) ++ c_str "\n" ++
       dec a ++ " / " ++ dec b ++ " = " ++
         (sign_str (xorb (a <? 0) (b <? 0)) ++
          dec (Z.abs (a / b)) ++ ".00") ++
         c_str "\n").
Proof.
  intros Ha Hb Hb0 Hmod.
  destruct (exact_quotient a b Ha Hb Hb0 Hmod) as [Hval Htext].
  split; [exact Hval |]. split.
  - destruct (test_stdout_nonzero a b rest Hb0) as (l & w & Hrun & Hout).
    exists l, w. split; [exact Hrun |]. split.
    + unfold Test.run in Hrun.
      rewrite (test_main_nonzero _ _ _ _ Hb0) in Hrun.
      injection Hrun as <- _. reflexivity.
    + rewrite Hout, Htext. reflexivity.
  - destruct (test2_stdout_nonzero a b rest Hb0) as (l & w & Hrun & Hout).
    exists l, w. split; [exact Hrun |]. split.
    + unfold Test2.run in Hrun.
      rewrite (test2_main_nonzero _ _ _ _ Hb0) in Hrun.
      injection Hrun as <- _. reflexivity.
    + rewrite Hout, Htext. reflexivity.
Qed.

Lemma divisible_operands_exact_quotient_witness :
  (Binary32.to_Q (Binary32.div (Binary32.of_int (-4)) (Binary32.of_int 2))
   == inject_Z (-4 / 2))%Q /\
  (exists l w, Test.run [-4; 2] = Done 0 l w /\
     Test.quotient l =
       Some (Binary32.div (Binary32.of_int (-4)) (Binary32.of_int 2)) /\
     stdout (trace w) =
       c_str "=== Simple Calculator Program ===\n" ++
       "Enter the first number: " ++ "Enter the second number: " ++
       c_str "\n=== Results ===\n" ++
       "Addition: " ++ dec (-4) ++ " + " ++ dec 2 ++ " = " ++
         dec (CInt.add (-4) 2) ++ c_str "\n" ++
       "Subtraction: " ++ dec (-4) ++ " - " ++ dec 2 ++ " = " ++
         dec (CInt.sub (-4) 2) ++ c_str "\n" ++
       "Multiplication: " ++ dec (-4) ++ " × " ++ dec 2 ++ " = " ++
         dec (CInt.mul (-4) 2) ++ c_str "\n" ++
       "Division: " ++ dec (-4) ++ " ÷ " ++ dec 2 ++ " = " ++
         (sign_str (xorb (-4 <? 0) (2 <? 0)) ++
          dec (Z.abs (-4 / 2)) ++ ".00") ++
         c_str "\n") /\
  (exists l w, Test2.run [-4; 2] = Done 0 l w /\
     Test2.division l =
       Some (Binary32.div (Binary32.of_int (-4)) (Binary32.of_int 2)) /\
     stdout (trace w) =
       "Enter first number: " ++ "Enter second number: " ++
       c_str "\nResults:\n" ++
       dec (-4) ++ " + " ++ dec 2 ++ " = " ++ dec (CInt.add (-4) 2) ++
         c_str "\n" ++
       dec (-4) ++ " - " ++ dec 2 ++ " = " ++ dec (CInt.sub (-4) 2) ++
         c_str "\n" ++
       dec (-4) ++ " * " ++ dec 2 ++ " = " ++ dec (CInt.mul (-4) 2) ++
         c_str "\n" ++
       dec (-4) ++ " / " ++ dec 2 ++ " = " ++
         (sign_str (xorb (-4 <? 0) (2 <? 0)) ++
          dec (Z.abs (-4 / 2)) ++ ".00") ++
         c_str "\n").
Proof.
  apply (divisible_operands_exact_quotient (-4) 2 []);
    [reflexivity | reflexivity | discriminate | reflexivity].
Defined.

End DivisionLine.

(* ================================================================= *)
(** ** Sign of the quotient *)

Section QuotientSign.
Import Stdio Machine.

(** X7.  With a zero dividend and a divisor that is a non-zero [int],
    the quotient assigned is a zero carrying the sign of the divisor,
    and the division line shows [0.00] for a positive divisor and
    [-0.00] for a negative one. *)
Theorem zero_dividend_signed_zero (b : Z) (rest : list Z) :
  CInt.in_range b = true -> b <> 0 ->
  (exists l w, Test.run (0 :: b :: rest) = Done 0 l w /\
     Test.quotient l = Some (S754_zero (b <? 0)) /\
     stdout (trace w) =
       c_str "=== Simple Calculator Program ===\n" ++
       "Enter the first number: " ++ "Enter the second number: " ++
       c_str "\n=== Results ===\n" ++
       "Addition: " ++ dec 0 ++ " + " ++ dec b ++ " = " ++
         dec (CInt.add 0 b) ++ c_str "\n" ++
       "Subtraction: " ++ dec 0 ++ " - " ++ dec b ++ " = " ++
         dec (CInt.sub 0 b) ++ c_str "\n" ++
       "Multiplication: " ++ dec 0 ++ " × " ++ dec b ++ " = " ++
         dec (CInt.mul 0 b) ++ c_str "\n" ++
       "Division: " ++ dec 0 ++ " ÷ " ++ dec b ++ " = " ++
         (sign_str (b <? 0) ++ "0.00") ++ c_str "\n") /\
  (exists l w, Test2.run (0 :: b :: rest) = Done 0 l w /\
     Test2.division l = Some (S754_zero (b <? 0)) /\
     stdout (trace w) =
       "Enter first number: " ++ "Enter second number: " ++
       c_str "\nResults:\n" ++
       dec 0 ++ " + " ++ dec b ++ " = " ++ dec (CInt.add 0 b) ++ c_str "\n" ++
       dec 0 ++ " - " ++ dec b ++ " = " ++ dec (CInt.sub 0 b) ++ c_str "\n" ++
       dec 0 ++ " * " ++ dec b ++ " = " ++ dec (CInt.mul 0 b) ++ c_str "\n" ++
       dec 0 ++ " / " ++ dec b ++ " = " ++
         (sign_str (b <? 0) ++ "0.00") ++ c_str "\n").
Proof.
  intros Hb Hb0.
  pose proof (zero_dividend_quotient b (in_range_bounds b Hb) Hb0) as Hq.
  split.
  - destruct (test_stdout_nonzero 0 b rest Hb0) as (l & w & Hrun & Hout).
    exists l, w. split; [exact Hrun |]. split.
    + unfold Test.run in Hrun.
      rewrite (test_main_nonzero _ _ _ _ Hb0) in Hrun.
      injection Hrun as <- _. cbn [Test.quotient]. f_equal. exact Hq.
    + rewrite Hout, Hq. reflexivity.
  - destruct (test2_stdout_nonzero 0 b rest Hb0) as (l & w & Hrun & Hout).
    exists l, w. split; [exact Hrun |]. split.
    + unfold Test2.run in Hrun.
      rewrite (test2_main_nonzero _ _ _ _ Hb0) in Hrun.
      injection Hrun as <- _. cbn [Test2.division]. f_equal. exact Hq.
    + rewrite Hout, Hq. reflexivity.
Qed.

Lemma zero_dividend_signed_zero_witness :
  (exists l w, Test.run [0; -2147483648] = Done 0 l w /\
     Test.quotient l = Some (S754_zero (-2147483648 <? 0)) /\
     stdout (trace w) =
       c_str "=== Simple Calculator Program ===\n" ++
       "Enter the first number: " ++ "Enter the second number: " ++
       c_str "\n=== Results ===\n" ++
       "Addition: " ++ dec 0 ++ " + " ++ dec (-2147483648) ++ " = " ++
         dec (CInt.add 0 (-2147483648)) ++ c_str "\n" ++
       "Subtraction: " ++ dec 0 ++ " - " ++ dec (-2147483648) ++ " = " ++
         dec (CInt.sub 0 (-2147483648)) ++ c_str "\n" ++
       "Multiplication: " ++ dec 0 ++ " × " ++ dec (-2147483648) ++ " = " ++
         dec (CInt.mul 0 (-2147483648)) ++ c_str "\n" ++
       "Division: " ++ dec 0 ++ " ÷ " ++ dec (-2147483648) ++ " = " ++
         (sign_str (-2147483648 <? 0) ++ "0.00") ++ c_str "\n") /\
  (exists l w, Test2.run [0; -2147483648] = Done 0 l w /\
     Test2.division l = Some (S754_zero (-2147483648 <? 0)) /\
     stdout (trace w) =
       "Enter first number: " ++ "Enter second number: " ++
       c_str "\nResults:\n" ++
       dec 0 ++ " + " ++ dec (-2147483648) ++ " = " ++
         dec (CInt.add 0 (-2147483648)) ++ c_str "\n" ++
       dec 0 ++ " - " ++ dec (-2147483648) ++ " = " ++
         dec (CInt.sub 0 (-2147483648)) ++ c_str "\n" ++
       dec 0 ++ " * " ++ dec (-2147483648) ++ " = " ++
         dec (CInt.mul 0 (-2147483648)) ++ c_str "\n" ++
       dec 0 ++ " / " ++ dec (-2147483648) ++ " = " ++
         (sign_str (-2147483648 <? 0) ++ "0.00") ++ c_str "\n").
Proof.
  apply (zero_dividend_signed_zero (-2147483648) []);
    [reflexivity | discriminate].
Defined.

(** X8.  For non-zero [int]s the quotient assigned is never a zero, an
    infinity or a NaN: it is a finite non-zero [float] whose sign bit
    is set exactly when the operands have opposite signs.  So the text
    [%.2f] gives for it is the text of its magnitude, preceded by a
    minus sign exactly in that case (also when the magnitude prints as
    [0.00]). *)
Theorem quotient_sign_follows_operands (a b : Z) (rest : list Z) :
  CInt.in_range a = true -> CInt.in_range b = true ->
  a <> 0 -> b <> 0 ->
  exists m e,
    Binary32.div (Binary32.of_int a) (Binary32.of_int b) =
      S754_finite (xorb (a <? 0) (b <? 0)) m e /\
    fixed2 (Binary32.div (Binary32.of_int a) (Binary32.of_int b)) =
      sign_str (xorb (a <? 0) (b <? 0)) ++ fixed2 (S754_finite false m e) /\
    (exists l w, Test.run (a :: b :: rest) = Done 0 l w /\
       Test.quotient l = Some (S754_finite (xorb (a <? 0) (b <? 0)) m e) /\
       floats_printed (trace w) =
         [S754_finite (xorb (a <? 0) (b <? 0)) m e]) /\
    (exists l w, Test2.run (a :: b :: rest) = Done 0 l w /\
       Test2.division l = Some (S754_finite (xorb (a <? 0) (b <? 0)) m e) /\
       floats_printed (trace w) =
         [S754_finite (xorb (a <? 0) (b <? 0)) m e]).
Proof.
  intros Ha Hb Ha0 Hb0.
  apply in_range_bounds in Ha, Hb. change (2 ^ 31) with 2147483648 in *.
  destruct (division_of_conversions (a <? 0) (b <? 0)
              (Z.to_pos (Z.abs a)) (Z.to_pos (Z.abs b)))
    as (m & e & R & _).
  { rewrite Z2Pos.id by lia. change (2 ^ 32) with 4294967296. lia. }
  { rewrite Z2Pos.id by lia. change (2 ^ 32) with 4294967296. lia. }
  assert (Hq : Binary32.div (Binary32.of_int a) (Binary32.of_int b) =
               S754_finite (xorb (a <? 0) (b <? 0)) m e).
  { rewrite (of_int_nonzero a Ha0), (of_int_nonzero b Hb0). exact R. }
  exists m, e. split; [exact Hq |]. split; [| split].
  - rewrite Hq. destruct (xorb (a <? 0) (b <? 0)); reflexivity.
  - unfold Test.run. rewrite (test_main_nonzero _ _ _ _ Hb0), Hq.
    do 2 eexists. repeat split; reflexivity.
  - unfold Test2.run. rewrite (test2_main_nonzero _ _ _ _ Hb0), Hq.
    do 2 eexists. repeat split; reflexivity.
Qed.

Lemma quotient_sign_follows_operands_witness :
  exists m e,
    Binary32.div (Binary32.of_int (-1)) (Binary32.of_int 1000) =
      S754_finite (xorb (-1 <? 0) (1000 <? 0)) m e /\
    fixed2 (Binary32.div (Binary32.of_int (-1)) (Binary32.of_int 1000)) =
      sign_str (xorb (-1 <? 0) (1000 <? 0)) ++
      fixed2 (S754_finite false m e) /\
    (exists l w, Test.run [-1; 1000] = Done 0 l w /\
       Test.quotient l =
         Some (S754_finite (xorb (-1 <? 0) (1000 <? 0)) m e) /\
       floats_printed (trace w) =
         [S754_finite (xorb (-1 <? 0) (1000 <? 0)) m e]) /\
    (exists l w, Test2.run [-1; 1000] = Done 0 l w /\
       Test2.division l =
         Some (S754_finite (xorb (-1 <? 0) (1000 <? 0)) m e) /\
       floats_printed (trace w) =
         [S754_finite (xorb (-1 <? 0) (1000 <? 0)) m e]).
Proof.
  apply (quotient_sign_follows_operands (-1) 1000 []);
    [reflexivity | reflexivity | discriminate | discriminate].
Defined.

(** On [-1] and [1000] the division line ends in [-0.00]. *)
Example small_negative_quotient_text :
  fixed2 (Binary32.div (Binary32.of_int (-1)) (Binary32.of_int 1000))
  = "-0.00".
Proof. reflexivity. Qed.

End QuotientSign.
